(** * Offline notes summarizer and TXT chatbot: a shallow embedding

    The development follows the two scripts of the repository:
    [notes_summarizer.py] (class [OfflineNotesSummarizer]) and [chat.py].
    Python strings are sequences of Unicode code points; the calls into the
    media, speech and summarization libraries, the console and the file system
    are interactions of a program tree with its environment. *)

From Stdlib Require Import String Ascii Numbers.DecimalString.
From Stdlib Require Floats.
From Stdlib Require Import List NArith ZArith Arith Bool Lia.
Import ListNotations.

(** ** Python strings *)

Module PyStr.

(** A [str] is a sequence of code points; [len] is [List.length]. *)
Definition codepoint := N.
Definition str := list codepoint.

(** An ASCII literal of the source, as a [str]. *)
Definition lit (s : string) : str :=
  map N_of_ascii (list_ascii_of_string s).

Definition in_range (lo hi c : N) : bool := ((lo <=? c) && (c <=? hi))%N.

(** The code points [str.isspace] accepts; [str.split()] and [str.strip()]
    cut on exactly these. *)
Definition whitespace_ranges : list (N * N) :=
  [ (0x9, 0xd); (0x1c, 0x20); (0x85, 0x85); (0xa0, 0xa0); (0x1680, 0x1680);
    (0x2000, 0x200a); (0x2028, 0x2029); (0x202f, 0x202f); (0x205f, 0x205f);
    (0x3000, 0x3000) ]%N.

Definition isspace (c : codepoint) : bool :=
  existsb (fun r => in_range (fst r) (snd r) c) whitespace_ranges.

(** [cur] is the word being read; it is emitted when it is not empty. *)
Definition flush_word (cur : str) : list str :=
  match cur with
  | [] => []
  | _ :: _ => [cur]
  end.

(** [s.split()]: the maximal runs of non-whitespace code points of [s]. *)
Fixpoint split_from (cur : str) (s : str) : list str :=
  match s with
  | [] => flush_word cur
  | c :: s' =>
      if isspace c then flush_word cur ++ split_from [] s'
      else split_from (cur ++ [c]) s'
  end.

Definition split (s : str) : list str := split_from [] s.

(** [sep.join(l)]. *)
Fixpoint join (sep : str) (l : list str) : str :=
  match l with
  | [] => []
  | x :: rest =>
      match rest with
      | [] => x
      | _ :: _ => x ++ sep ++ join sep rest
      end
  end.

Fixpoint lstrip (s : str) : str :=
  match s with
  | [] => []
  | c :: s' => if isspace c then lstrip s' else s
  end.

Definition rstrip (s : str) : str := rev (lstrip (rev s)).

(** [s.strip()]. *)
Definition strip (s : str) : str := rstrip (lstrip s).

Fixpoint starts_with (p s : str) : bool :=
  match p, s with
  | [], _ => true
  | _ :: _, [] => false
  | a :: p', b :: s' => (a =? b)%N && starts_with p' s'
  end.

(** [s.replace(old, new)] for a non-empty [old]: occurrences are replaced from
    the left and do not overlap; [skip] counts the code points of an occurrence
    still to be passed over. *)
Fixpoint replace_from (old new : str) (skip : nat) (s : str) : str :=
  match s with
  | [] => []
  | c :: s' =>
      match skip with
      | S k => replace_from old new k s'
      | O =>
          if starts_with old s
          then new ++ replace_from old new (length old - 1) s'
          else c :: replace_from old new 0 s'
      end
  end.

Definition replace (old new s : str) : str := replace_from old new 0 s.

(** [s.split(sep)] for a one-code-point separator: empty pieces are kept. *)
Fixpoint split_on (sep : codepoint) (s : str) : list str :=
  match s with
  | [] => [[]]
  | c :: s' =>
      if (c =? sep)%N then [] :: split_on sep s'
      else
        match split_on sep s' with
        | [] => [[c]]
        | piece :: pieces => (c :: piece) :: pieces
        end
  end.

(** Decimal rendering of an integer, as [str(n)] and [{n}] give it. *)
Definition str_of_Z (n : Z) : str := lit (NilZero.string_of_int (Z.to_int n)).

Definition str_of_nat (n : nat) : str := str_of_Z (Z.of_nat n).

(** [{n:02d}]: sign first, then the digits padded with zeros to a total
    width of two. *)
Definition format_02d (n : Z) : str :=
  let zero := 48%N in
  let digits := str_of_Z (Z.abs n) in
  if (n <? 0)%Z then 45%N :: digits
  else match digits with
       | [d] => [zero; d]
       | _ => digits
       end.

End PyStr.

Import PyStr.

(** ** Python floats

    A [float] is an IEEE 754 binary64 value; sums, differences and quotients
    round to nearest, ties to even. *)

Module PyFloat.

Definition float := PrimFloat.float.

(** The value of a finite float, as [m * 2 ^ e] with [m] signed. *)
Definition decode (x : float) : option (Z * Z) :=
  match FloatOps.Prim2SF x with
  | SpecFloat.S754_zero _ => Some (0, 0)%Z
  | SpecFloat.S754_finite s m e => Some (if s then Z.neg m else Z.pos m, e)
  | SpecFloat.S754_infinity _ => None
  | SpecFloat.S754_nan => None
  end.

(** The float of value [m * 2 ^ e], for [|m| < 2 ^ 63] and a value that is
    a float. *)
Definition encode (m e : Z) : float :=
  match m with
  | Z0 => PrimFloat.zero
  | Z.pos p => FloatOps.SF2Prim (SpecFloat.S754_finite false p e)
  | Z.neg p => FloatOps.SF2Prim (SpecFloat.S754_finite true p e)
  end.

Definition is_zero (x : float) : bool := PrimFloat.eqb x PrimFloat.zero.

(** C's [fmod]: the exact remainder of [x / y] with the quotient truncated;
    it has the sign of [x] and is always a float. *)
Definition fmod (x y : float) : float :=
  match decode x, decode y with
  | Some (mx, ex), Some (my, ey) =>
      if (my =? 0)%Z then PrimFloat.nan
      else
        let e := Z.min ex ey in
        encode (Z.rem (mx * 2 ^ (ex - e)) (my * 2 ^ (ey - e))) e
  | Some _, None => if PrimFloat.is_nan y then PrimFloat.nan else x
  | None, _ => PrimFloat.nan
  end.

(** C's [floor]. *)
Definition floor (x : float) : float :=
  match decode x with
  | Some (m, e) => if (0 <=? e)%Z then x else encode (m / 2 ^ (- e)) 0
  | None => x
  end.

(** [float_rem] of CPython's floatobject.c: [vx % wx], for [wx] not zero. *)
Definition float_rem (vx wx : float) : float :=
  let m := fmod vx wx in
  if negb (is_zero m)
  then
    if xorb (PrimFloat.ltb wx PrimFloat.zero) (PrimFloat.ltb m PrimFloat.zero)
    then PrimFloat.add m wx
    else m
  else PrimFloat.zero.

(** The quotient of [_float_div_mod] of floatobject.c: [vx // wx], for [wx]
    not zero. *)
Definition float_floor_div (vx wx : float) : float :=
  let m := fmod vx wx in
  let d := PrimFloat.div (PrimFloat.sub vx m) wx in
  let d :=
    if negb (is_zero m)
       && xorb (PrimFloat.ltb wx PrimFloat.zero)
            (PrimFloat.ltb m PrimFloat.zero)
    then PrimFloat.sub d PrimFloat.one
    else d in
  if negb (is_zero d)
  then
    let f := floor d in
    if PrimFloat.ltb (encode 1 (-1)) (PrimFloat.sub d f)
    then PrimFloat.add f PrimFloat.one
    else f
  else PrimFloat.zero.

(** [int(x)] for a finite [x]: the value with its fraction dropped. (On a
    NaN or an infinity [int] raises; the times below are finite.) *)
Definition int_of (x : float) : Z :=
  match decode x with
  | Some (m, e) => if (0 <=? e)%Z then m * 2 ^ e else Z.quot m (2 ^ (- e))
  | None => 0
  end.

(** A time in seconds as the speech engine reports it: a finite float. *)
Record seconds : Type := Seconds {
  as_float : float;
  seconds_finite : PrimFloat.is_finite as_float = true
}.

(** The time of value [m * 2 ^ e] seconds (zero when that is no finite
    float). *)
Definition dyadic (m e : Z) : seconds :=
  match PrimFloat.is_finite (encode m e) as b
        return PrimFloat.is_finite (encode m e) = b -> seconds with
  | true => fun H => Seconds (encode m e) H
  | false => fun _ => Seconds PrimFloat.zero eq_refl
  end eq_refl.

End PyFloat.

Import PyFloat.

(** ** The chunking step of [summarize] (notes_summarizer.py, lines 67-83) *)

Module Chunker.

Definition max_chunk_length : nat := 1024.

Definition space : str := lit " ".

(** The loop over [words]: the state is [(chunks, current_chunk,
    current_length)]. *)
Fixpoint chunk_loop (words : list str) (chunks : list str)
    (current_chunk : list str) (current_length : nat)
  : list str * list str * nat :=
  match words with
  | [] => (chunks, current_chunk, current_length)
  | word :: rest =>
      let current_chunk := current_chunk ++ [word] in
      let current_length := current_length + (length word + 1) in
      if max_chunk_length <=? current_length
      then chunk_loop rest (chunks ++ [join space current_chunk]) [] 0
      else chunk_loop rest chunks current_chunk current_length
  end.

(** The chunks [summarize] builds from [text], the final partial one
    included. *)
Definition make_chunks (text : str) : list str :=
  let words := split text in
  match chunk_loop words [] [] 0 with
  | (chunks, current_chunk, _) =>
      match current_chunk with
      | [] => chunks
      | _ :: _ => chunks ++ [join space current_chunk]
      end
  end.

(** What [current_length] counts: each word and one separator. *)
Fixpoint weight (ws : list str) : nat :=
  match ws with
  | [] => 0
  | w :: ws' => (length w + 1) + weight ws'
  end.

(** The same loop on word groups: the groups flushed, and the group left
    open when the words run out. *)
Fixpoint groups (words : list str) (cur : list str)
  : list (list str) * list str :=
  match words with
  | [] => ([], cur)
  | w :: rest =>
      let cur' := cur ++ [w] in
      if max_chunk_length <=? weight cur'
      then (cur' :: fst (groups rest []), snd (groups rest []))
      else groups rest cur'
  end.

(** All groups, the open one included when it holds a word. *)
Definition all_groups (words : list str) : list (list str) :=
  fst (groups words [])
  ++ match snd (groups words []) with
     | [] => []
     | _ :: _ => [snd (groups words [])]
     end.

(** A word as [split] produces it: not empty, no whitespace inside. *)
Definition solid (w : str) : Prop :=
  forallb (fun c => negb (isspace c)) w = true.

Definition is_word (w : str) : Prop := w <> [] /\ solid w.

End Chunker.

Import Chunker.

(** ** Interaction with the environment

    Everything outside the two scripts (moviepy, faster-whisper, the
    transformers pipeline, the file system) is reached through a [call]; the
    environment answers a call with a value or with an exception. *)

Module Effects.

(** An instance of Python's [Exception], with its [str(e)]. Interpreter
    signals outside [Exception] (KeyboardInterrupt, SystemExit) are not
    part of the model. *)
Record exn : Type := Exn { exn_str : str }.

(** A segment as faster-whisper yields it; times are in seconds. *)
Record segment : Type := Segment {
  seg_start : seconds;
  seg_end : seconds;
  seg_text : str
}.

(** A [VideoFileClip] object. *)
Definition video := nat.

Inductive call : Type :=
| VideoFileClip (video_path : str)
| write_audiofile (clip : video) (audio_path : str)
| video_close (clip : video)
| whisper_transcribe (audio_path language : str) (beam_size : Z)
| summarizer (chunk : str) (max_length min_length : Z)
    (do_sample truncation : bool)
| open_write (path content : str)
| os_path_exists (path : str)
| os_remove (path : str).

(** What a call returns when it does not raise: the summarizer's answer is
    [summary[0]['summary_text']], the speech engine's is the segments and
    [info.language]. *)
Definition resp (c : call) : Type :=
  match c with
  | VideoFileClip _ => video
  | write_audiofile _ _ => unit
  | video_close _ => unit
  | whisper_transcribe _ _ _ => (list segment * str)%type
  | summarizer _ _ _ _ _ => str
  | open_write _ _ => unit
  | os_path_exists _ => bool
  | os_remove _ => unit
  end.

Inductive prog (A : Type) : Type :=
| Ret (a : A)
| Raise (e : exn)
| Print (line : str) (k : prog A)
| Call (c : call) (k : exn + resp c -> prog A).

Arguments Ret {A} a.
Arguments Raise {A} e.
Arguments Print {A} line k.
Arguments Call {A} c k.

Fixpoint bind {A B : Type} (m : prog A) (f : A -> prog B) : prog B :=
  match m with
  | Ret a => f a
  | Raise e => Raise e
  | Print line k => Print line (bind k f)
  | Call c k => Call c (fun r => bind (k r) f)
  end.

(** A call whose exception, if any, propagates. *)
Definition perform (c : call) : prog (resp c) :=
  Call c (fun r => match r with
                   | inl e => Raise e
                   | inr x => Ret x
                   end).

Definition print (line : str) : prog unit := Print line (Ret tt).

(** [try: body except Exception as e: handler e]. *)
Fixpoint try_except {A : Type} (body : prog A) (handler : exn -> prog A)
  : prog A :=
  match body with
  | Ret a => Ret a
  | Raise e => handler e
  | Print line k => Print line (try_except k handler)
  | Call c k => Call c (fun r => try_except (k r) handler)
  end.

Declare Scope prog_scope.
Delimit Scope prog_scope with prog.
Bind Scope prog_scope with prog.

Notation "x <- m ;; k" := (bind m (fun x => k))
  (at level 100, m at next level, right associativity) : prog_scope.
Notation "m ;; k" := (bind m (fun _ => k))
  (at level 100, right associativity) : prog_scope.

(** What an observer sees of a run: console lines, and calls with their
    answers. *)
Inductive event : Type :=
| EvPrint (line : str)
| EvCall (c : call) (r : exn + resp c).

Inductive outcome (A : Type) : Type :=
| Returns (a : A)
| Raises (e : exn).

Arguments Returns {A} a.
Arguments Raises {A} e.

Section Run.

(** The environment: a state, and how it answers a call. *)
Variable env : Type.
Variable respond : forall c : call, env -> (exn + resp c) * env.

Fixpoint run {A : Type} (p : prog A) (w : env)
  : outcome A * env * list event :=
  match p with
  | Ret a => (Returns a, w, [])
  | Raise e => (Raises e, w, [])
  | Print line k =>
      match run k w with
      | (o, w', tr) => (o, w', EvPrint line :: tr)
      end
  | Call c k =>
      match respond c w with
      | (r, w1) =>
          match run (k r) w1 with
          | (o, w', tr) => (o, w', EvCall c r :: tr)
          end
      end
  end.

End Run.

Arguments run {env} respond {A} p w.

(** The events of a later pipeline stage: speech recognition, summarization,
    writing the notes. *)
Definition later_stage (ev : event) : bool :=
  match ev with
  | EvCall (whisper_transcribe _ _ _) _ => true
  | EvCall (summarizer _ _ _ _ _) _ => true
  | EvCall (open_write _ _) _ => true
  | _ => false
  end.

(** The chunks handed to the summarization model during a run. *)
Fixpoint summarized_chunks (tr : list event) : list str :=
  match tr with
  | [] => []
  | EvCall (summarizer chunk _ _ _ _) _ :: tr' =>
      chunk :: summarized_chunks tr'
  | _ :: tr' => summarized_chunks tr'
  end.

(** The files written during a run, with their contents. *)
Fixpoint files_written (tr : list event) : list (str * str) :=
  match tr with
  | [] => []
  | EvCall (open_write path content) (inr _) :: tr' =>
      (path, content) :: files_written tr'
  | _ :: tr' => files_written tr'
  end.

(** No library call raises in this environment. *)
Definition never_raises {env : Type}
    (respond : forall c : call, env -> (exn + resp c) * env) : Prop :=
  forall c w, exists x, fst (respond c w) = inr x.

End Effects.

Import Effects.

(** ** [OfflineNotesSummarizer] (notes_summarizer.py) *)

Module Notes.

Open Scope prog_scope.

Definition nl : str := [10%N].
Definition check_mark : codepoint := 0x2705%N.
Definition cross_mark : codepoint := 0x274c%N.
Definition bullet : codepoint := 0x2022%N.

(** The emoji of the console messages and of the notes file. *)
Definition musical_note : codepoint := 0x1f3b5%N.
Definition memo : codepoint := 0x1f4dd%N.
Definition robot_face : codepoint := 0x1f916%N.
Definition clapper_board : codepoint := 0x1f3ac%N.
Definition floppy_disk : codepoint := 0x1f4be%N.
Definition direct_hit : codepoint := 0x1f3af%N.
Definition light_bulb : codepoint := 0x1f4a1%N.
Definition stopwatch : str := [0x23f1%N; 0xfe0f%N].

(** ['=' * 60] and ['-' * 60]. *)
Definition rule (c : codepoint) : str := repeat c 60.
Definition equals_sign : codepoint := 61%N.
Definition hyphen : codepoint := 45%N.

(** The body of the [try] of [extract_audio]. *)
Definition extract_audio_body (video_path audio_path : str)
  : prog (option str) :=
  clip <- perform (VideoFileClip video_path) ;;
  _ <- perform (write_audiofile clip audio_path) ;;
  _ <- perform (video_close clip) ;;
  print (check_mark :: lit " Audio extracted!") ;;
  Ret (Some audio_path).

Definition extract_audio_error (e : exn) : str :=
  cross_mark :: lit " Error extracting audio: " ++ exn_str e.

Definition extract_audio (video_path audio_path : str) : prog (option str) :=
  print (musical_note :: lit " Extracting audio from " ++ video_path
           ++ lit "...") ;;
  try_except
    (extract_audio_body video_path audio_path)
    (fun e => print (extract_audio_error e) ;; Ret None).

(** An entry of [timestamps]: the dict with keys start, end and text. *)
Record timestamp : Type := Timestamp {
  ts_start : seconds;
  ts_end : seconds;
  ts_text : str
}.

Fixpoint transcribe_loop (segments : list segment) (transcript : str)
    (timestamps : list timestamp) : str * list timestamp :=
  match segments with
  | [] => (transcript, timestamps)
  | segment :: rest =>
      transcribe_loop rest
        (transcript ++ seg_text segment ++ lit " ")
        (timestamps ++
           [Timestamp (seg_start segment) (seg_end segment) (seg_text segment)])
  end.

Definition transcribe (audio_path language : str)
  : prog (str * list timestamp) :=
  print (memo :: lit " Transcribing audio (language: " ++ language
           ++ lit ")...") ;;
  answer <- perform (whisper_transcribe audio_path language 5) ;;
  let (segments, info_language) := answer : list segment * str in
  let (transcript, timestamps) := transcribe_loop segments [] [] in
  print (check_mark :: lit " Transcription complete! Detected language: "
           ++ info_language) ;;
  Ret (strip transcript, timestamps).

(** A kept fragment behind its bullet glyph, and the test that keeps it. *)
Definition bulleted (fragment : str) : str := bullet :: lit " " ++ fragment.
Definition meaningful (fragment : str) : bool := 15 <? length fragment.

(** [format_bullet_points]: the entries of [bullet_points]. *)
Definition sentences_of (summary : str) : list str :=
  split_on 124%N (replace (lit ". ") (lit ".|") summary).

Fixpoint sentence_loop (sentences : list str) (bullet_points : list str)
  : list str :=
  match sentences with
  | [] => bullet_points
  | sentence :: rest =>
      let sentence := strip sentence in
      if 15 <? length sentence
      then sentence_loop rest (bullet_points ++ [bullet :: lit " " ++ sentence])
      else sentence_loop rest bullet_points
  end.

Fixpoint summary_loop (summaries : list str) (bullet_points : list str)
  : list str :=
  match summaries with
  | [] => bullet_points
  | summary :: rest =>
      summary_loop rest (sentence_loop (sentences_of summary) bullet_points)
  end.

Definition bullet_points_of (summaries : list str) : list str :=
  summary_loop summaries [].

Definition format_bullet_points (summaries : list str) : str :=
  join nl (bullet_points_of summaries).

(** The loop of [summarize] over [enumerate(chunks)]; [total] is
    [len(chunks)]. *)
Fixpoint summarize_loop (i total : nat) (chunks : list str)
    (summaries : list str) (max_length : Z) : prog (list str) :=
  match chunks with
  | [] => Ret summaries
  | chunk :: rest =>
      print (lit "  Extracting key points from chunk " ++ str_of_nat (i + 1)
               ++ lit "/" ++ str_of_nat total ++ lit "...") ;;
      if 50 <? length (split chunk)
      then
        summary <- perform (summarizer chunk max_length 25 false true) ;;
        summarize_loop (S i) total rest (summaries ++ [summary]) max_length
      else summarize_loop (S i) total rest summaries max_length
  end.

Definition summarize (text : str) (max_length : Z) : prog str :=
  print (robot_face :: lit " Generating key points summary...") ;;
  let chunks := make_chunks text in
  summaries <- summarize_loop 0 (length chunks) chunks [] max_length ;;
  print (check_mark :: lit " Key points extracted!") ;;
  Ret (format_bullet_points summaries).

(** [int(ts["start"] // 60)] and [int(ts["start"] % 60)]. *)
Definition sixty : float := encode 60 0.

Definition minutes_of (start : seconds) : Z :=
  int_of (float_floor_div (as_float start) sixty).

Definition seconds_of (start : seconds) : Z :=
  int_of (float_rem (as_float start) sixty).

(** One line of the TIMESTAMPS section. *)
Definition timestamp_line (ts : timestamp) : str :=
  lit "[" ++ format_02d (minutes_of (ts_start ts)) ++ lit ":"
    ++ format_02d (seconds_of (ts_start ts)) ++ lit "] " ++ ts_text ts ++ nl.

(** The loop over [enumerate(timestamps)], from index [i] on: the strings
    passed to [f.write]. *)
Fixpoint timestamp_loop (i : nat) (timestamps : list timestamp) : list str :=
  match timestamps with
  | [] => []
  | ts :: rest =>
      if (i mod 5 =? 0) && (i <? 40)
      then timestamp_line ts :: timestamp_loop (S i) rest
      else timestamp_loop (S i) rest
  end.

(** The entries the loop keeps: those at an index [i] with [i % 5 == 0]
    and [i < 40], indices counted from [i0]. *)
Definition kept_from (i0 : nat) (timestamps : list timestamp)
  : list timestamp :=
  map snd
    (filter (fun p => (fst p mod 5 =? 0) && (fst p <? 40))
       (combine (seq i0 (length timestamps)) timestamps)).

(** The successive arguments of [f.write] in [save_notes]. *)
Definition notes_writes (summary : str) (timestamps : list timestamp)
  : list str :=
  [ rule equals_sign ++ nl;
    memo :: lit " IMPORTANT POINTS - AI NOTES SUMMARY" ++ nl;
    rule equals_sign ++ nl ++ nl;
    direct_hit :: lit " KEY TAKEAWAYS" ++ nl;
    rule hyphen ++ nl ++ nl;
    summary ++ nl ++ nl;
    nl ++ rule equals_sign ++ nl ++ nl;
    light_bulb :: lit " NOTE: Full transcript available if needed" ++ nl;
    lit "The above points capture the essential information." ++ nl ++ nl;
    rule equals_sign ++ nl;
    stopwatch ++ lit " TIMESTAMPS" ++ nl;
    rule equals_sign ++ nl ++ nl ]
  ++ timestamp_loop 0 timestamps.

Definition save_notes (transcript summary : str)
    (timestamps : list timestamp) (output_file : str) : prog unit :=
  print (floppy_disk :: lit " Saving notes to " ++ output_file ++ lit "...") ;;
  _ <- perform (open_write output_file
                  (concat (notes_writes summary timestamps))) ;;
  print (check_mark :: lit " Notes saved successfully!").

(** The dict [process_video] returns. *)
Record notes : Type := MkNotes {
  transcript : str;
  summary : str;
  timestamps : list timestamp
}.

Definition default_audio_path : str := lit "temp_audio.mp3".

(** [not audio_path]: [None] and the empty string are falsy. *)
Definition falsy (audio_path : option str) : bool :=
  match audio_path with
  | None => true
  | Some [] => true
  | Some (_ :: _) => false
  end.

Definition process_video (video_path language output_file : str)
  : prog (option notes) :=
  print (nl ++ rule equals_sign) ;;
  print (clapper_board :: lit " Processing: " ++ video_path) ;;
  print (rule equals_sign ++ nl) ;;
  audio_path <- extract_audio video_path default_audio_path ;;
  if falsy audio_path then Ret None
  else
    let audio_path := match audio_path with
                      | Some p => p
                      | None => []
                      end in
    answer <- transcribe audio_path language ;;
    let (transcript, timestamps) := answer : str * list timestamp in
    summary <- summarize transcript 130 ;;
    save_notes transcript summary timestamps output_file ;;
    present <- perform (os_path_exists audio_path) ;;
    (if present : bool then perform (os_remove audio_path) else Ret tt) ;;
    Ret (Some (MkNotes transcript summary timestamps)).

(** A chunk the loop of [summarize] hands to the model. *)
Definition long_enough (chunk : str) : bool := 50 <? length (split chunk).

(** Whatever the speech engine hears, the transcript has no chunk of more
    than 50 words. *)
Definition short_speech {env : Type}
    (respond : forall c : call, env -> (exn + resp c) * env) : Prop :=
  forall audio_path language beam_size w segments info_language,
    fst (respond (whisper_transcribe audio_path language beam_size) w)
    = inr (segments, info_language) ->
    Forall (fun chunk => length (split chunk) <= 50)
      (make_chunks (strip (fst (transcribe_loop segments [] [])))).

End Notes.

Import Notes.

(** ** The sentence splitter of chat.py *)

Module Chat.

(** First code points of the runs of ten decimal digits ([\d] on a str
    pattern is Unicode category Nd; table of Unicode 14.0); the mathematical
    digits U+1D7CE..U+1D7FF form one run of fifty. *)
Definition decimal_runs : list N :=
  [ 0x30; 0x660; 0x6f0; 0x7c0; 0x966; 0x9e6; 0xa66; 0xae6; 0xb66; 0xbe6;
    0xc66; 0xce6; 0xd66; 0xde6; 0xe50; 0xed0; 0xf20; 0x1040; 0x1090; 0x17e0;
    0x1810; 0x1946; 0x19d0; 0x1a80; 0x1a90; 0x1b50; 0x1bb0; 0x1c40; 0x1c50;
    0xa620; 0xa8d0; 0xa900; 0xa9d0; 0xa9f0; 0xaa50; 0xabf0; 0xff10; 0x104a0;
    0x10d30; 0x11066; 0x110f0; 0x11136; 0x111d0; 0x112f0; 0x11450; 0x114d0;
    0x11650; 0x116c0; 0x11730; 0x118e0; 0x11950; 0x11c50; 0x11d50; 0x11da0;
    0x16a60; 0x16ac0; 0x16b50; 0x1e140; 0x1e2f0; 0x1e950; 0x1fbf0 ]%N.

Definition isdecimal (c : codepoint) : bool :=
  existsb (fun lo => in_range lo (lo + 9) c) decimal_runs
  || in_range 0x1d7ce 0x1d7ff c.

Definition newline : codepoint := 10%N.
Definition asterisk : codepoint := 42%N.
Definition close_paren : codepoint := 41%N.

(** The alternative [\d+\)] at the start of [s], [seen] digits already
    read: the length of the match. *)
Fixpoint match_digits_paren (seen : nat) (s : str) : option nat :=
  match s with
  | [] => None
  | c :: s' =>
      if isdecimal c then match_digits_paren (S seen) s'
      else if (c =? close_paren)%N && (0 <? seen) then Some (S seen)
      else None
  end.

(** The pattern [\n|•|- |\*|\d+\)] at the start of [s]: the length of the
    match, alternatives tried in order. *)
Definition match_delimiter (s : str) : option nat :=
  match s with
  | [] => None
  | c :: s' =>
      if (c =? newline)%N then Some 1
      else if (c =? bullet)%N then Some 1
      else if (c =? hyphen)%N && starts_with (lit " ") s' then Some 2
      else if (c =? asterisk)%N then Some 1
      else match_digits_paren 0 s
  end.

(** [re.split] with that pattern: [cur] is the piece being read, [skip] the
    code points of the current match still to be passed over. *)
Fixpoint re_split_from (skip : nat) (cur : str) (s : str) : list str :=
  match s with
  | [] => [cur]
  | c :: s' =>
      match skip with
      | S k => re_split_from k cur s'
      | O =>
          match match_delimiter s with
          | Some n => cur :: re_split_from (n - 1) [] s'
          | None => re_split_from 0 (cur ++ [c]) s'
          end
      end
  end.

Definition re_split (text : str) : list str := re_split_from 0 [] text.

Fixpoint keep_stripped (lines : list str) : list str :=
  match lines with
  | [] => []
  | l :: rest =>
      match strip l with
      | [] => keep_stripped rest
      | _ :: _ => strip l :: keep_stripped rest
      end
  end.

Definition split_into_sentences (text : str) : list str :=
  let lines := re_split text in
  keep_stripped lines.

(** [p in s] for strings. *)
Fixpoint contains (p s : str) : bool :=
  starts_with p s
  || match s with
     | [] => false
     | _ :: s' => contains p s'
     end.

(** A decimal digit directly followed by a closing parenthesis. *)
Fixpoint digit_then_paren (s : str) : bool :=
  match s with
  | [] => false
  | c :: s' =>
      (isdecimal c && starts_with [close_paren] s') || digit_then_paren s'
  end.

(** None of the delimiters occurs in [text]: newline, bullet, hyphen and
    space, asterisk, digit and closing parenthesis. *)
Definition no_delimiter (text : str) : bool :=
  negb (contains [newline] text)
  && negb (contains [bullet] text)
  && negb (contains (hyphen :: lit " ") text)
  && negb (contains [asterisk] text)
  && negb (digit_then_paren text).

End Chat.

Import Chat.

(** ** Two environments to run the pipeline in *)

Module Studio.

Definition hello_segments : list segment :=
  [ Segment (dyadic 0 0) (dyadic 5 (-1))
      (lit " Welcome to the lecture.");
    Segment (dyadic 5 (-1)) (dyadic 133 (-1))
      (lit " Today we look at sorting.") ].

(** Every library call succeeds; the speech engine hears [hello_segments]
    and the model answers every chunk with one fixed summary. *)
Definition calm (c : call) (w : unit) : (exn + resp c) * unit :=
  match c as c0 return (exn + resp c0) * unit with
  | VideoFileClip _ => (inr 0, w)
  | write_audiofile _ _ => (inr tt, w)
  | video_close _ => (inr tt, w)
  | whisper_transcribe _ _ _ => (inr (hello_segments, lit "en"), w)
  | summarizer _ _ _ _ _ =>
      (inr (lit "Sorting orders a list. It is a classic problem."), w)
  | open_write _ _ => (inr tt, w)
  | os_path_exists _ => (inr true, w)
  | os_remove _ => (inr tt, w)
  end.

(** The media library cannot open any video. *)
Definition no_codec (c : call) (w : unit) : (exn + resp c) * unit :=
  match c as c0 return (exn + resp c0) * unit with
  | VideoFileClip _ => (inl (Exn (lit "could not find a codec")), w)
  | other => calm other w
  end.

Definition lecture : str := lit "lecture.mp4".
Definition english : str := lit "en".
Definition notes_file : str := lit "lecture_notes.txt".

(** Sixty words, and fifty. *)
Definition sixty_words : str := join space (repeat (lit "word") 60).
Definition fifty_words : str := join space (repeat (lit "a") 50).

End Studio.

(** ** Further observations of a run, and further environments *)

Module Stage.

(** The clean-up of [process_video]: looking for the temporary audio file
    and removing it. *)
Definition cleanup_event (ev : event) : bool :=
  match ev with
  | EvCall (os_path_exists _) _ => true
  | EvCall (os_remove _) _ => true
  | _ => false
  end.

(** One segment of sixty words. *)
Definition long_segments : list segment :=
  [ Segment (dyadic 0 0) (dyadic 30 0)
      (lit " " ++ Studio.sixty_words) ].

(** As [Studio.calm], with a speaker who says sixty words. *)
Definition talkative (c : call) (w : unit) : (exn + resp c) * unit :=
  match c as c0 return (exn + resp c0) * unit with
  | whisper_transcribe _ _ _ => (inr (long_segments, lit "en"), w)
  | other => Studio.calm other w
  end.

(** The speech engine fails. *)
Definition deaf (c : call) (w : unit) : (exn + resp c) * unit :=
  match c as c0 return (exn + resp c0) * unit with
  | whisper_transcribe _ _ _ => (inl (Exn (lit "audio could not be decoded")), w)
  | other => Studio.calm other w
  end.

(** The summarization model fails on every chunk. *)
Definition overloaded (c : call) (w : unit) : (exn + resp c) * unit :=
  match c as c0 return (exn + resp c0) * unit with
  | summarizer _ _ _ _ _ => (inl (Exn (lit "out of memory")), w)
  | other => talkative other w
  end.

(** Nothing but whitespace. *)
Definition blank (s : str) : Prop := forallb isspace s = true.

(** The timestamp entry [transcribe] makes of a segment. *)
Definition entry_of (s : segment) : timestamp :=
  Timestamp (seg_start s) (seg_end s) (seg_text s).

(** The three banner lines [process_video] prints first. *)
Definition banner (video_path : str) : list event :=
  [ EvPrint (nl ++ rule equals_sign);
    EvPrint (clapper_board :: lit " Processing: " ++ video_path);
    EvPrint (rule equals_sign ++ nl) ].

(** The path in a truthy [audio_path]. *)
Definition path_of (audio_path : option str) : str :=
  match audio_path with
  | Some p => p
  | None => []
  end.

(** The end of [process_video]: clean up, then return [result]. *)
Definition cleanup_then {A : Type} (audio_path : str) (result : A) : prog A :=
  bind (perform (os_path_exists audio_path))
    (fun present =>
       bind (if present : bool
             then perform (os_remove audio_path) else Ret tt)
         (fun _ => Ret result)).

(** How many line breaks a text holds. *)
Definition line_breaks (s : str) : nat :=
  length (filter (fun c => (c =? 10)%N) s).

(** No line break inside. *)
Definition one_line (s : str) : Prop := line_breaks s = 0.

(** The calls to the summarization model in a run, each with the chunk
    handed over and the model's answer. *)
Fixpoint model_exchanges (tr : list event) : list (str * (exn + str)) :=
  match tr with
  | [] => []
  | EvCall (summarizer chunk _ _ _ _) r :: tr' =>
      (chunk, r) :: model_exchanges tr'
  | _ :: tr' => model_exchanges tr'
  end.

(** The sentence boundary [format_bullet_points] cuts at, and its marker. *)
Definition dot_space : str := lit ". ".
Definition pipe : codepoint := 124%N.

(** No marker inside. *)
Definition pipe_free (s : str) : Prop :=
  forallb (fun c => negb (c =? pipe)%N) s = true.

End Stage.

Import Stage.

(** ** The knowledge base and the answer of chat.py *)

Module Retrieval.

Section Library.

(** What chat.py takes from outside: the content of a file, scikit-learn's
    fitted vectorizer with the row vector it gives a text, the cosine
    similarity of two rows (a float64), how two similarities compare, and
    numpy's [argsort]. *)
Variable file_content : str -> str.
Variable vectorizer : Type.
Variable vec : Type.
Variable score : Type.
Variable fit : list str -> option vectorizer.
Variable transform : vectorizer -> str -> vec.
Variable cosine_similarity : vec -> vec -> score.
Variable score_leb : score -> score -> bool.
Variable argsort : list score -> list nat.

Definition load_text_from_txt (txt_file : str) : str := file_content txt_file.

(** [build_knowledge_base]; [None] when fitting raises (no vocabulary). *)
Definition build_knowledge_base (txt_file : str)
  : option (list str * vectorizer * list vec) :=
  let text := load_text_from_txt txt_file in
  let sentences := split_into_sentences text in
  match fit sentences with
  | None => None
  | Some vectorizer =>
      let sentence_vectors := map (transform vectorizer) sentences in
      Some (sentences, vectorizer, sentence_vectors)
  end.

(** The text before [best_sentence] in the f-string of [answer_question]. *)
Definition answer_prefix : str :=
  10%N :: 0x1f4cc%N :: lit " Most Relevant Answer:" ++ [10%N].

(** The similarities [answer_question] computes, one per row. *)
Definition similarities (question : str) (vectorizer0 : vectorizer)
    (sentence_vectors : list vec) : list score :=
  let q_vec := transform vectorizer0 question in
  map (cosine_similarity q_vec) sentence_vectors.

(** [answer_question]; [None] when an index is out of range (IndexError). *)
Definition answer_question (question : str) (sentences : list str)
    (vectorizer0 : vectorizer) (sentence_vectors : list vec) (top_k : nat)
  : option str :=
  let sims := similarities question vectorizer0 sentence_vectors in
  let top_indices := firstn top_k (rev (argsort sims)) in
  match top_indices with
  | [] => None
  | first :: _ =>
      match nth_error sentences first with
      | None => None
      | Some best_sentence => Some (answer_prefix ++ best_sentence)
      end
  end.

(** No score before another one that is smaller: each index's score is at
    most the score of every index after it. *)
Fixpoint ascending (sims : list score) (indices : list nat) : bool :=
  match indices with
  | [] => true
  | a :: rest =>
      forallb
        (fun b =>
           match nth_error sims a, nth_error sims b with
           | Some x, Some y => score_leb x y
           | _, _ => false
           end) rest
      && ascending sims rest
  end.

(** What [argsort] promises of its result: the indices of [sims], each
    once, in ascending order of score. *)
Definition is_argsort (sims : list score) (indices : list nat) : bool :=
  forallb (fun k => existsb (Nat.eqb k) indices) (seq 0 (length sims))
  && (length indices =? length sims)
  && ascending sims indices.

End Library.

Arguments load_text_from_txt file_content txt_file : assert.
Arguments build_knowledge_base file_content {vectorizer vec} fit transform
  txt_file.
Arguments similarities {vectorizer vec score} transform cosine_similarity
  question vectorizer0 sentence_vectors.
Arguments answer_question {vectorizer vec score} transform cosine_similarity
  argsort question sentences vectorizer0 sentence_vectors top_k.
Arguments ascending {score} score_leb sims indices.
Arguments is_argsort {score} score_leb sims indices.

End Retrieval.

(** ** A small library to run chat.py with

    Term counts stand for the TF-IDF weights, the square of the cosine (an
    exact fraction) for the cosine, and a stable insertion sort for
    [argsort]. *)

Module Shelf.

Definition is_word_char (c : codepoint) : bool :=
  in_range 48 57 c || in_range 97 122 c || (c =? 95)%N.

Definition lower (c : codepoint) : codepoint :=
  if in_range 65 90 c then (c + 32)%N else c.

(** The tokens of a text: lower case, runs of two or more word
    characters. *)
Fixpoint tokens_from (cur : str) (s : str) : list str :=
  match s with
  | [] => if 2 <=? length cur then [cur] else []
  | c :: s' =>
      if is_word_char (lower c) then tokens_from (cur ++ [lower c]) s'
      else (if 2 <=? length cur then [cur] else []) ++ tokens_from [] s'
  end.

Definition tokens (s : str) : list str := tokens_from [] s.

Definition same (a b : str) : bool := starts_with a b && starts_with b a.

Definition count (t : str) (v : list str) : Z :=
  Z.of_nat (length (filter (same t) v)).

Definition dot (u v : list str) : Z :=
  fold_right (fun t acc => (count t v + acc)%Z) 0%Z u.

(** The square of the cosine of two count vectors, numerator and
    denominator; zero over one when a vector is zero. *)
Definition cosine (u v : list str) : Z * Z :=
  if ((dot u u =? 0) || (dot v v =? 0))%Z then (0, 1)%Z
  else (dot u v * dot u v, dot u u * dot v v)%Z.

Definition leb (x y : Z * Z) : bool :=
  (fst x * snd y <=? fst y * snd x)%Z.

Fixpoint insert (sims : list (Z * Z)) (i : nat) (sorted : list nat)
  : list nat :=
  match sorted with
  | [] => [i]
  | j :: rest =>
      if leb (nth j sims (0, 1)%Z) (nth i sims (0, 1)%Z)
      then j :: insert sims i rest
      else i :: sorted
  end.

Definition argsort (sims : list (Z * Z)) : list nat :=
  fold_left (fun sorted i => insert sims i sorted) (seq 0 (length sims)) [].

(** A notes file of two lines. *)
Definition notes : str := lit "hello world" ++ [10%N] ++ lit "Hello world".

Definition build (txt_file : str) :=
  Retrieval.build_knowledge_base (fun _ => notes) (fun _ => Some tt)
    (fun _ : unit => tokens) txt_file.

Definition answer (question : str) (sentences : list str)
    (sentence_vectors : list (list str)) (top_k : nat) : option str :=
  Retrieval.answer_question (fun _ : unit => tokens) cosine argsort question
    sentences tt sentence_vectors top_k.

End Shelf.

(** * Properties *)

(** ** Splitting and joining *)

Section SplitFacts.

Lemma solid_app (u v : str) : solid u -> solid v -> solid (u ++ v).
Proof.
  unfold solid. intros Hu Hv. rewrite forallb_app, Hu, Hv. reflexivity.
Qed.

Lemma isspace_space : isspace 32%N = true.
Proof. reflexivity. Qed.

Lemma split_from_solid (w : str) :
  solid w -> forall cur s, split_from cur (w ++ s) = split_from (cur ++ w) s.
Proof.
  induction w as [|c w IH]; intros Hw cur s.
  - now rewrite app_nil_r.
  - unfold solid in Hw. simpl in Hw. apply andb_prop in Hw as [Hc Hw].
    simpl. apply negb_true_iff in Hc. rewrite Hc.
    rewrite (IH Hw). now rewrite <- app_assoc.
Qed.

Lemma flush_word_is_word (cur : str) :
  solid cur -> Forall is_word (flush_word cur).
Proof.
  intros H. destruct cur; simpl; constructor; [|constructor].
  split; [discriminate | exact H].
Qed.

Lemma split_from_words (s : str) :
  forall cur, solid cur -> Forall is_word (split_from cur s).
Proof.
  induction s as [|c s IH]; intros cur Hcur; simpl.
  - now apply flush_word_is_word.
  - destruct (isspace c) eqn:Hc.
    + apply Forall_app. split.
      * now apply flush_word_is_word.
      * apply IH. reflexivity.
    + apply IH. apply solid_app; [assumption|].
      unfold solid. simpl. now rewrite Hc.
Qed.

Lemma split_words (s : str) : Forall is_word (split s).
Proof. apply split_from_words. reflexivity. Qed.

Lemma split_word (w : str) : is_word w -> split w = [w].
Proof.
  intros [Hne Hw]. unfold split.
  rewrite <- (app_nil_r w) at 1. rewrite split_from_solid by assumption.
  simpl. destruct w; [contradiction|reflexivity].
Qed.

Lemma split_join (ws : list str) :
  Forall is_word ws -> split (join space ws) = ws.
Proof.
  induction 1 as [|w ws Hw Hws IH]; [reflexivity|].
  destruct ws as [|w2 ws].
  - simpl. now apply split_word.
  - change (join space (w :: w2 :: ws))
      with (w ++ space ++ join space (w2 :: ws)).
    unfold split. destruct Hw as [Hne Hw].
    rewrite split_from_solid by assumption.
    change (space ++ join space (w2 :: ws))
      with (32%N :: join space (w2 :: ws)).
    cbn [split_from]. rewrite isspace_space.
    fold (split (join space (w2 :: ws))). rewrite IH.
    destruct w; [contradiction|reflexivity].
Qed.

Lemma length_join (ws : list str) :
  ws <> [] -> length (join space ws) + 1 = weight ws.
Proof.
  induction ws as [|w ws IH]; [contradiction|]. intros _.
  destruct ws as [|w2 ws].
  - simpl. lia.
  - change (join space (w :: w2 :: ws))
      with (w ++ space ++ join space (w2 :: ws)).
    rewrite !length_app. change (length space) with 1.
    change (weight (w :: w2 :: ws))
      with ((length w + 1) + weight (w2 :: ws)).
    assert (H : w2 :: ws <> []) by discriminate.
    specialize (IH H). lia.
Qed.

End SplitFacts.

(** ** The chunking loop *)

Section ChunkFacts.

Lemma weight_app (a b : list str) : weight (a ++ b) = weight a + weight b.
Proof. induction a as [|w a IH]; simpl; [reflexivity | lia]. Qed.

Lemma weight_removelast_le (g : list str) : weight (removelast g) <= weight g.
Proof.
  destruct g as [|w0 g0]; [apply Nat.le_refl|].
  assert (Hg : w0 :: g0 <> []) by discriminate.
  destruct (exists_last Hg) as (g' & w & ->).
  rewrite removelast_last, weight_app. lia.
Qed.

Lemma weight_last (g : list str) :
  g <> [] -> weight g = weight (removelast g) + (length (last g []) + 1).
Proof.
  intros Hg. destruct (exists_last Hg) as (g' & w & ->).
  rewrite removelast_last, last_last, weight_app. simpl. lia.
Qed.

(** [chunk_loop] is [groups] with every flushed group joined. *)
Lemma chunk_loop_groups (words : list str) :
  forall chunks cur,
    chunk_loop words chunks cur (weight cur)
    = (chunks ++ map (join space) (fst (groups words cur)),
       snd (groups words cur), weight (snd (groups words cur))).
Proof.
  induction words as [|w words IH]; intros chunks cur.
  - simpl. now rewrite app_nil_r.
  - cbn [chunk_loop groups].
    replace (weight cur + (length w + 1)) with (weight (cur ++ [w]))
      by (rewrite weight_app; simpl; lia).
    destruct (max_chunk_length <=? weight (cur ++ [w])).
    + change 0 with (weight []). rewrite IH. cbn [fst snd map].
      now rewrite <- app_assoc.
    + apply IH.
Qed.

Lemma make_chunks_groups (text : str) :
  make_chunks text = map (join space) (all_groups (split text)).
Proof.
  unfold make_chunks, all_groups.
  change 0 with (weight []). rewrite chunk_loop_groups. cbn [app].
  destruct (snd (groups (split text) [])).
  - now rewrite app_nil_r.
  - now rewrite map_app.
Qed.

Lemma groups_concat (words : list str) :
  forall cur,
    concat (fst (groups words cur)) ++ snd (groups words cur) = cur ++ words.
Proof.
  induction words as [|w words IH]; intros cur.
  - simpl. now rewrite app_nil_r.
  - cbn [groups]. destruct (max_chunk_length <=? weight (cur ++ [w])).
    + cbn [fst snd concat]. rewrite <- app_assoc, IH.
      now rewrite <- app_assoc.
    + rewrite IH. now rewrite <- app_assoc.
Qed.

(** A flushed group reached the threshold with its final word, and not
    before. *)
Lemma groups_flushed (words : list str) :
  forall cur,
    weight cur < max_chunk_length ->
    Forall (fun g => max_chunk_length <= weight g
                     /\ weight (removelast g) < max_chunk_length)
      (fst (groups words cur))
    /\ weight (snd (groups words cur)) < max_chunk_length.
Proof.
  induction words as [|w words IH]; intros cur Hcur.
  - simpl. split; [constructor | assumption].
  - cbn [groups].
    destruct (max_chunk_length <=? weight (cur ++ [w])) eqn:E.
    + apply Nat.leb_le in E. cbn [fst snd].
      assert (H0 : weight [] < max_chunk_length)
        by (unfold max_chunk_length; simpl; lia).
      destruct (IH [] H0) as [IH1 IH2]. split; [|assumption].
      constructor; [|assumption].
      rewrite removelast_last. split; assumption.
    + apply Nat.leb_gt in E. apply IH. assumption.
Qed.

Lemma all_groups_concat (words : list str) :
  concat (all_groups words) = words.
Proof.
  unfold all_groups. rewrite concat_app.
  pose proof (groups_concat words []) as H. simpl in H.
  destruct (snd (groups words [])); simpl.
  - now rewrite app_nil_r in *.
  - now rewrite app_nil_r.
Qed.

Lemma all_groups_flushed (words : list str) :
  Forall (fun g => max_chunk_length <= weight g) (removelast (all_groups words)).
Proof.
  assert (H0 : weight [] < max_chunk_length)
    by (unfold max_chunk_length; simpl; lia).
  destruct (groups_flushed words [] H0) as [HF _].
  assert (HF' : Forall (fun g => max_chunk_length <= weight g)
                  (fst (groups words []))).
  { eapply Forall_impl; [|exact HF]. now intros g [H _]. }
  unfold all_groups. destruct (snd (groups words [])).
  - rewrite app_nil_r. clear HF.
    induction HF' as [|g gs Hg Hgs IH]; [constructor|].
    destruct gs; [constructor|].
    change (removelast (g :: l :: gs)) with (g :: removelast (l :: gs)).
    constructor; assumption.
  - rewrite removelast_last. assumption.
Qed.

Lemma all_groups_bounded (words : list str) :
  Forall (fun g => g <> [] /\ weight (removelast g) < max_chunk_length)
    (all_groups words).
Proof.
  assert (H0 : weight [] < max_chunk_length)
    by (unfold max_chunk_length; simpl; lia).
  destruct (groups_flushed words [] H0) as [HF HO].
  unfold all_groups. apply Forall_app. split.
  - eapply Forall_impl; [|exact HF]. intros g [H1 H2]. split; [|assumption].
    intros ->. unfold max_chunk_length in H1. simpl in H1. lia.
  - destruct (snd (groups words [])) eqn:E; constructor; [|constructor].
    split; [discriminate|].
    eapply Nat.le_lt_trans; [apply weight_removelast_le | exact HO].
Qed.

Lemma all_groups_words (words : list str) :
  Forall is_word words -> Forall (Forall is_word) (all_groups words).
Proof.
  intros H. rewrite <- (all_groups_concat words) in H.
  now apply Forall_concat in H.
Qed.

(** What the chunks of a text are: groups of its words, none empty, each
    joined with single spaces. *)
Lemma make_chunks_spec (text : str) :
  exists gs,
    make_chunks text = map (join space) gs
    /\ gs = all_groups (split text)
    /\ Forall (fun g => g <> [] /\ Forall is_word g) gs
    /\ map split (make_chunks text) = gs.
Proof.
  exists (all_groups (split text)).
  assert (HW := all_groups_words _ (split_words text)).
  assert (HB := all_groups_bounded (split text)).
  assert (HG : Forall (fun g => g <> [] /\ Forall is_word g)
                 (all_groups (split text))).
  { apply Forall_forall. intros g Hg. split.
    - now apply (proj1 (Forall_forall _ _) HB g Hg).
    - now apply (proj1 (Forall_forall _ _) HW g Hg). }
  repeat split; try assumption.
  - apply make_chunks_groups.
  - rewrite make_chunks_groups, map_map.
    clear HB. induction HW as [|g gs Hg Hgs IH]; [reflexivity|].
    simpl. rewrite split_join by assumption. f_equal. apply IH.
    now inversion HG.
Qed.

End ChunkFacts.

Section ChunkTheorems.

Lemma removelast_map {A B : Type} (f : A -> B) (l : list A) :
  removelast (map f l) = map f (removelast l).
Proof.
  induction l as [|a l IH]; [reflexivity|].
  destruct l as [|b l]; [reflexivity|].
  change (removelast (map f (a :: b :: l)))
    with (f a :: removelast (map f (b :: l))).
  now rewrite IH.
Qed.

(** Every chunk is the join of a non-empty group of words that had not
    reached the threshold before its final word. *)
Lemma chunk_groups_all (text : str) :
  Forall (fun g => g <> [] /\ Forall is_word g
                   /\ weight (removelast g) < max_chunk_length)
    (all_groups (split text)).
Proof.
  assert (HW := all_groups_words _ (split_words text)).
  assert (HB := all_groups_bounded (split text)).
  apply Forall_forall. intros g Hg.
  destruct (proj1 (Forall_forall _ _) HB g Hg) as [H1 H2].
  repeat split; try assumption.
  now apply (proj1 (Forall_forall _ _) HW g Hg).
Qed.

Lemma chunk_groups_flushed (text : str) :
  Forall (fun g => g <> [] /\ Forall is_word g
                   /\ max_chunk_length <= weight g)
    (removelast (all_groups (split text))).
Proof.
  assert (HA := chunk_groups_all text).
  assert (HF := all_groups_flushed (split text)).
  apply Forall_forall. intros g Hg.
  assert (Hin : In g (all_groups (split text))).
  { destruct (all_groups (split text)) as [|g0 gs] eqn:E; [contradiction|].
    assert (Hne : g0 :: gs <> []) by discriminate.
    destruct (exists_last Hne) as (gs' & gl & Egs). rewrite Egs in *.
    rewrite removelast_last in Hg. apply in_or_app. now left. }
  destruct (proj1 (Forall_forall _ _) HA g Hin) as (H1 & H2 & _).
  repeat split; try assumption.
  now apply (proj1 (Forall_forall _ _) HF g Hg).
Qed.

(** C3: the words of the chunks, chunk after chunk, are the words of the
    transcript in their order; no chunk is empty; and the words still in
    [current_chunk] when the loop ends are flushed as the last chunk. *)
Theorem chunks_preserve_words (text : str) :
  concat (map split (make_chunks text)) = split text
  /\ Forall (fun chunk => 0 < length chunk) (make_chunks text)
  /\ exists chunks current_chunk current_length,
       chunk_loop (split text) [] [] 0
       = (chunks, current_chunk, current_length)
       /\ make_chunks text
          = chunks ++ match current_chunk with
                      | [] => []
                      | _ :: _ => [join space current_chunk]
                      end.
Proof.
  destruct (make_chunks_spec text) as (gs & Hmk & Hgs & HF & Hsplit).
  split; [|split].
  - rewrite Hsplit, Hgs. apply all_groups_concat.
  - rewrite Hmk. apply Forall_map.
    eapply Forall_impl; [|exact HF]. intros g [Hne Hw]. simpl.
    pose proof (length_join g Hne) as HL.
    destruct g as [|w g]; [contradiction|].
    inversion Hw as [|? ? [Hw0 _] _]; subst.
    destruct w; [contradiction|]. simpl in HL. simpl. lia.
  - unfold make_chunks.
    destruct (chunk_loop (split text) [] [] 0) as [[chunks cur] n].
    exists chunks, cur, n. split; [reflexivity|].
    destruct cur; [now rewrite app_nil_r | reflexivity].
Qed.

(** The transcript of 171 five-letter words. *)
Lemma overflow_chunk :
  let text := join space (repeat (lit "aaaaa") 171) in
  make_chunks text = [text]
  /\ length text = 1025
  /\ (length text <=? max_chunk_length) = false.
Proof. vm_compute. repeat split. Qed.

(** C2, as the code has it: a word is appended first and the chunk is
    flushed once the running total (each word and one separator) has
    reached 1024. So the words of a chunk before its final one total less
    than 1024, every chunk but the last totals at least 1024, and a chunk
    is at most 1023 code points plus its final word long. *)
Theorem chunk_overshoot_bounded (text : str) :
  (forall word rest chunks current_chunk current_length,
      chunk_loop (word :: rest) chunks current_chunk current_length
      = if max_chunk_length <=? current_length + (length word + 1)
        then chunk_loop rest
               (chunks ++ [join space (current_chunk ++ [word])]) [] 0
        else chunk_loop rest chunks (current_chunk ++ [word])
               (current_length + (length word + 1)))
  /\ Forall (fun chunk =>
               weight (removelast (split chunk)) < max_chunk_length
               /\ length chunk
                  <= max_chunk_length - 1 + length (last (split chunk) []))
       (make_chunks text)
  /\ Forall (fun chunk => max_chunk_length <= weight (split chunk))
       (removelast (make_chunks text)).
Proof.
  split; [reflexivity|]. rewrite make_chunks_groups. split.
  - apply Forall_map. eapply Forall_impl; [|apply chunk_groups_all].
    intros g (Hne & Hw & Hb). simpl. rewrite split_join by assumption.
    split; [assumption|].
    pose proof (length_join g Hne). pose proof (weight_last g Hne).
    unfold max_chunk_length in *. lia.
  - rewrite removelast_map. apply Forall_map.
    eapply Forall_impl; [|apply chunk_groups_flushed].
    intros g (Hne & Hw & Hb). simpl. now rewrite split_join.
Qed.

(** C9: every chunk except the last has a word total (each word and one
    separator) of at least 1024, hence at least 1023 code points; no chunk
    exceeds 1024 by as much as the length of its final word, and a chunk
    longer than 1024 does occur. *)
Theorem flushed_chunks_reach_threshold :
  (forall text,
      Forall (fun chunk =>
                max_chunk_length <= weight (split chunk)
                /\ max_chunk_length - 1 <= length chunk)
        (removelast (make_chunks text))
      /\ Forall (fun chunk =>
                   length chunk
                   < max_chunk_length + length (last (split chunk) []))
           (make_chunks text))
  /\ exists text chunk,
       make_chunks text = [chunk]
       /\ length chunk
          = max_chunk_length - 1 + length (last (split chunk) [])
       /\ max_chunk_length < length chunk.
Proof.
  split.
  - intros text. rewrite make_chunks_groups. split.
    + rewrite removelast_map. apply Forall_map.
      eapply Forall_impl; [|apply chunk_groups_flushed].
      intros g (Hne & Hw & Hb). simpl. rewrite split_join by assumption.
      split; [assumption|]. pose proof (length_join g Hne).
      unfold max_chunk_length in *. lia.
    + apply Forall_map. eapply Forall_impl; [|apply chunk_groups_all].
      intros g (Hne & Hw & Hb). simpl. rewrite split_join by assumption.
      pose proof (length_join g Hne). pose proof (weight_last g Hne).
      unfold max_chunk_length in *. lia.
  - exists (join space (repeat (lit "aaaaa") 170
                          ++ [lit "aa"; lit "bbbbbbbbbb"])).
    eexists. split; [vm_compute; reflexivity|].
    vm_compute. split; [reflexivity|]. apply Nat.leb_le. reflexivity.
Qed.

End ChunkTheorems.

(** ** Running programs *)

Section RunFacts.

Variable env : Type.
Variable respond : forall c : call, env -> (exn + resp c) * env.

Lemma run_bind {A B : Type} (m : prog A) (f : A -> prog B) :
  forall w,
    run respond (bind m f) w
    = match run respond m w with
      | (Returns a, w1, tr1) =>
          match run respond (f a) w1 with
          | (o, w2, tr2) => (o, w2, tr1 ++ tr2)
          end
      | (Raises e, w1, tr1) => (Raises e, w1, tr1)
      end.
Proof.
  induction m as [a|e|line k IH|c k IH]; intros w; simpl.
  - now destruct (run respond (f a) w) as [[o w2] tr2].
  - reflexivity.
  - rewrite IH. destruct (run respond k w) as [[[a|e] w1] tr1].
    + now destruct (run respond (f a) w1) as [[o w2] tr2].
    + reflexivity.
  - destruct (respond c w) as [r w0]. rewrite IH.
    destruct (run respond (k r) w0) as [[[a|e] w1] tr1].
    + now destruct (run respond (f a) w1) as [[o w2] tr2].
    + reflexivity.
Qed.

Lemma run_try_except {A : Type} (body : prog A) (handler : exn -> prog A) :
  forall w,
    run respond (try_except body handler) w
    = match run respond body w with
      | (Returns a, w1, tr1) => (Returns a, w1, tr1)
      | (Raises e, w1, tr1) =>
          match run respond (handler e) w1 with
          | (o, w2, tr2) => (o, w2, tr1 ++ tr2)
          end
      end.
Proof.
  induction body as [a|e|line k IH|c k IH]; intros w; simpl.
  - reflexivity.
  - now destruct (run respond (handler e) w) as [[o w2] tr2].
  - rewrite IH. destruct (run respond k w) as [[[a|e] w1] tr1].
    + reflexivity.
    + now destruct (run respond (handler e) w1) as [[o w2] tr2].
  - destruct (respond c w) as [r w0]. rewrite IH.
    destruct (run respond (k r) w0) as [[[a|e] w1] tr1].
    + reflexivity.
    + now destruct (run respond (handler e) w1) as [[o w2] tr2].
Qed.

Lemma run_print (line : str) (w : env) :
  run respond (print line) w = (Returns tt, w, [EvPrint line]).
Proof. reflexivity. Qed.

Lemma run_print_then {A : Type} (line : str) (k : prog A) (w : env) :
  run respond (bind (print line) (fun _ => k)) w
  = match run respond k w with
    | (o, w', tr) => (o, w', EvPrint line :: tr)
    end.
Proof. reflexivity. Qed.

Lemma files_written_app (tr1 tr2 : list event) :
  files_written (tr1 ++ tr2) = files_written tr1 ++ files_written tr2.
Proof.
  induction tr1 as [|ev tr1 IH]; [reflexivity|].
  destruct ev as [line|c r]; simpl; [assumption|].
  destruct c; try assumption. destruct r; [assumption|].
  simpl. now rewrite IH.
Qed.

Lemma summarized_chunks_app (tr1 tr2 : list event) :
  summarized_chunks (tr1 ++ tr2)
  = summarized_chunks tr1 ++ summarized_chunks tr2.
Proof.
  induction tr1 as [|ev tr1 IH]; [reflexivity|].
  destruct ev as [line|c r]; simpl; [assumption|].
  destruct c; try assumption. simpl. now rewrite IH.
Qed.

(** The [try] body of [extract_audio] only talks to the media library. *)
Lemma extract_audio_body_quiet (video_path audio_path : str) (w : env) :
  existsb later_stage
    (snd (run respond (extract_audio_body video_path audio_path) w)) = false
  /\ files_written
       (snd (run respond (extract_audio_body video_path audio_path) w)) = []
  /\ summarized_chunks
       (snd (run respond (extract_audio_body video_path audio_path) w)) = [].
Proof.
  unfold extract_audio_body. simpl.
  destruct (respond (VideoFileClip video_path) w) as [[e|clip] w1]; simpl;
    [repeat split|].
  destruct (respond (write_audiofile clip audio_path) w1) as [[e|[]] w2];
    simpl; [repeat split|].
  destruct (respond (video_close clip) w2) as [[e|[]] w3];
    simpl; repeat split.
Qed.

End RunFacts.

(** ** Audio extraction failure *)

Section ExtractionFailure.

Variable env : Type.
Variable respond : forall c : call, env -> (exn + resp c) * env.

Lemma extract_audio_caught (video_path audio_path : str) (w w1 : env)
    (e : exn) (tr1 : list event) :
  run respond (extract_audio_body video_path audio_path) w
  = (Raises e, w1, tr1) ->
  run respond (extract_audio video_path audio_path) w
  = (Returns None, w1,
     EvPrint (musical_note :: lit " Extracting audio from " ++ video_path
                ++ lit "...")
     :: tr1 ++ [EvPrint (extract_audio_error e)]).
Proof.
  intros H. unfold extract_audio.
  rewrite run_print_then, run_try_except, H. reflexivity.
Qed.

(** C6: when the extraction raises, [extract_audio] prints the error and
    returns [None]; [process_video] then returns [None] too, and its run
    holds no call to the speech engine or the summarization model and
    opens no file for writing. *)
Theorem extraction_failure_aborts (video_path language output_file : str)
    (w w1 : env) (e : exn) (tr1 : list event) :
  run respond (extract_audio_body video_path default_audio_path) w
  = (Raises e, w1, tr1) ->
  fst (run respond (extract_audio video_path default_audio_path) w)
  = (Returns None, w1)
  /\ last (snd (run respond (extract_audio video_path default_audio_path) w))
       (EvPrint [])
     = EvPrint (cross_mark :: lit " Error extracting audio: " ++ exn_str e)
  /\ fst (run respond (process_video video_path language output_file) w)
     = (Returns None, w1)
  /\ existsb later_stage
       (snd (run respond (process_video video_path language output_file) w))
     = false
  /\ files_written
       (snd (run respond (process_video video_path language output_file) w))
     = [].
Proof.
  intros H.
  pose proof (extract_audio_caught _ _ _ _ _ _ H) as HE.
  pose proof (extract_audio_body_quiet env respond video_path
                default_audio_path w) as (Q1 & Q2 & _).
  rewrite H in Q1, Q2. simpl in Q1, Q2.
  split; [now rewrite HE|]. split.
  { rewrite HE. cbn [snd]. rewrite app_comm_cons. apply last_last. }
  unfold process_video. rewrite !run_print_then, run_bind, HE.
  cbn [falsy run fst snd]. repeat split.
  - rewrite app_nil_r. cbn [existsb later_stage orb].
    rewrite existsb_app, Q1. reflexivity.
  - rewrite app_nil_r. cbn [files_written].
    rewrite files_written_app, Q2. reflexivity.
Qed.

End ExtractionFailure.

(** No codec for [lecture.mp4]: the pipeline stops after the error line. *)
Lemma extraction_failure_aborts_no_codec :
  run Studio.no_codec
    (extract_audio_body Studio.lecture default_audio_path) tt
  = (Raises (Exn (lit "could not find a codec")), tt,
     [EvCall (VideoFileClip Studio.lecture)
        (inl (Exn (lit "could not find a codec")))])
  /\ fst (run Studio.no_codec
            (process_video Studio.lecture Studio.english Studio.notes_file) tt)
     = (Returns None, tt)
  /\ files_written
       (snd (run Studio.no_codec
               (process_video Studio.lecture Studio.english Studio.notes_file)
               tt))
     = [].
Proof.
  assert (H : run Studio.no_codec
                (extract_audio_body Studio.lecture default_audio_path) tt
              = (Raises (Exn (lit "could not find a codec")), tt,
                 [EvCall (VideoFileClip Studio.lecture)
                    (inl (Exn (lit "could not find a codec")))]))
    by reflexivity.
  split; [exact H|].
  pose proof (extraction_failure_aborts unit Studio.no_codec Studio.lecture
                Studio.english Studio.notes_file tt tt _ _ H)
    as (_ & _ & R & _ & F).
  split; [exact R | exact F].
Defined.

(** ** The summarization loop *)

Section SummarizeFacts.

Variable env : Type.
Variable respond : forall c : call, env -> (exn + resp c) * env.

Lemma summarize_loop_returns (max_length : Z) (chunks : list str) :
  forall i total summaries w out w' tr,
    run respond (summarize_loop i total chunks summaries max_length) w
    = (Returns out, w', tr) ->
    summarized_chunks tr = filter long_enough chunks
    /\ files_written tr = []
    /\ exists fresh,
         out = summaries ++ fresh
         /\ length fresh = length (filter long_enough chunks).
Proof.
  induction chunks as [|chunk rest IH]; intros i total summaries w out w' tr H.
  - simpl in H. inversion H; subst. repeat split.
    exists []. now rewrite app_nil_r.
  - cbn [summarize_loop] in H. rewrite run_print_then in H.
    cbn [filter].
    change (long_enough chunk) with (50 <? length (split chunk)).
    destruct (50 <? length (split chunk)).
    + rewrite run_bind in H. unfold perform in H. cbn [run] in H.
      destruct (respond (summarizer chunk max_length 25 false true) w)
        as [[e|summary] w1]; cbn [run] in H; [discriminate|].
      destruct (run respond
                  (summarize_loop (S i) total rest (summaries ++ [summary])
                     max_length) w1) as [[o w2] tr2] eqn:R.
      inversion H; subst. apply IH in R as (R1 & R2 & fresh & R3 & R4).
      cbn [summarized_chunks files_written app]. rewrite R1, R2.
      repeat split. exists (summary :: fresh).
      rewrite R3, <- app_assoc. split; [reflexivity|]. simpl. now rewrite R4.
    + destruct (run respond
                  (summarize_loop (S i) total rest summaries max_length) w)
        as [[o w2] tr2] eqn:R.
      inversion H; subst. apply IH in R as (R1 & R2 & fresh & R3 & R4).
      cbn [summarized_chunks files_written]. repeat split; try assumption.
      now exists fresh.
Qed.

Lemma summarize_loop_short (max_length : Z) (chunks : list str) :
  Forall (fun chunk => length (split chunk) <= 50) chunks ->
  forall i total summaries w,
  exists tr,
    run respond (summarize_loop i total chunks summaries max_length) w
    = (Returns summaries, w, tr)
    /\ summarized_chunks tr = [] /\ files_written tr = [].
Proof.
  induction 1 as [|chunk rest Hc Hrest IH]; intros i total summaries w.
  - exists []. repeat split.
  - cbn [summarize_loop]. rewrite run_print_then.
    apply Nat.ltb_ge in Hc. rewrite Hc.
    destruct (IH (S i) total summaries w) as (tr & R & R1 & R2).
    rewrite R. eexists. repeat split; assumption.
Qed.

Lemma summarize_run (text : str) (max_length : Z) (w : env) :
  run respond (summarize text max_length) w
  = match run respond
            (summarize_loop 0 (length (make_chunks text)) (make_chunks text)
               [] max_length) w with
    | (Returns summaries, w1, tr) =>
        (Returns (format_bullet_points summaries), w1,
         EvPrint (robot_face :: lit " Generating key points summary...")
         :: tr ++ [EvPrint (check_mark :: lit " Key points extracted!")])
    | (Raises e, w1, tr) =>
        (Raises e, w1,
         EvPrint (robot_face :: lit " Generating key points summary...")
         :: tr)
    end.
Proof.
  unfold summarize. rewrite run_print_then, run_bind.
  destruct (run respond
              (summarize_loop 0 (length (make_chunks text))
                 (make_chunks text) [] max_length) w)
    as [[[summaries|e] w1] tr]; reflexivity.
Qed.

End SummarizeFacts.

(** A transcript of exactly fifty words is one chunk, and the model is not
    called on it. *)
Lemma fifty_word_chunk_skipped :
  make_chunks Studio.fifty_words = [Studio.fifty_words]
  /\ length (split Studio.fifty_words) = 50
  /\ (length (split Studio.fifty_words) <? 50) = false
  /\ fst (run Studio.calm (summarize Studio.fifty_words 130) tt)
     = (Returns [], tt)
  /\ summarized_chunks
       (snd (run Studio.calm (summarize Studio.fifty_words 130) tt)) = [].
Proof. vm_compute. repeat split. Qed.

(** ** A pipeline in which nothing raises *)

Section QuietPipeline.

Variable env : Type.
Variable respond : forall c : call, env -> (exn + resp c) * env.
Hypothesis quiet : never_raises respond.

Lemma run_perform (c : call) (w : env) :
  exists x w1,
    respond c w = (inr x, w1)
    /\ run respond (perform c) w = (Returns x, w1, [EvCall c (inr x)]).
Proof.
  destruct (quiet c w) as [x Hx]. unfold perform. cbn [run].
  destruct (respond c w) as [r w1]. cbn [fst] in Hx. subst r.
  exists x, w1. split; reflexivity.
Qed.

Ltac perform_next c w x w1 :=
  let R := fresh "R" in
  rewrite run_bind;
  destruct (run_perform c w) as (x & w1 & _ & R); rewrite R; clear R.

Lemma extract_audio_ok (video_path audio_path : str) (w : env) :
  exists w1 tr,
    run respond (extract_audio video_path audio_path) w
    = (Returns (Some audio_path), w1, tr)
    /\ files_written tr = [] /\ summarized_chunks tr = [].
Proof.
  unfold extract_audio. rewrite run_print_then, run_try_except.
  unfold extract_audio_body.
  perform_next (VideoFileClip video_path) w clip w1.
  perform_next (write_audiofile clip audio_path) w1 u2 w2.
  perform_next (video_close clip) w2 u3 w3.
  rewrite run_print_then. cbn [run]. eexists _, _.
  split; [reflexivity|]. split; reflexivity.
Qed.

Lemma transcribe_ok (audio_path language : str) (w : env) :
  exists segments info_language w1 tr,
    fst (respond (whisper_transcribe audio_path language 5) w)
    = inr (segments, info_language)
    /\ run respond (transcribe audio_path language) w
       = (Returns (strip (fst (transcribe_loop segments [] [])),
                   snd (transcribe_loop segments [] [])), w1, tr)
    /\ files_written tr = [] /\ summarized_chunks tr = [].
Proof.
  unfold transcribe. rewrite run_print_then, run_bind.
  destruct (run_perform (whisper_transcribe audio_path language 5) w)
    as ([segments info_language] & w1 & E & R).
  rewrite R. exists segments, info_language.
  destruct (transcribe_loop segments [] []) as [transcript timestamps].
  rewrite run_print_then. cbn [run fst snd]. eexists _, _.
  split; [now rewrite E|]. split; [reflexivity|]. split; reflexivity.
Qed.

Lemma save_notes_ok (transcript summary output_file : str)
    (timestamps : list timestamp) (w : env) :
  exists w1 tr,
    run respond (save_notes transcript summary timestamps output_file) w
    = (Returns tt, w1, tr)
    /\ files_written tr
       = [(output_file, concat (notes_writes summary timestamps))]
    /\ summarized_chunks tr = [].
Proof.
  unfold save_notes. rewrite run_print_then.
  perform_next
    (open_write output_file (concat (notes_writes summary timestamps)))
    w u w1.
  rewrite run_print. destruct u. eexists _, _.
  split; [reflexivity|]. split; reflexivity.
Qed.

Lemma cleanup_ok {A : Type} (audio_path : str) (a : A) (w : env) :
  exists w1 tr,
    run respond
      (bind (perform (os_path_exists audio_path))
         (fun present =>
            bind (if present : bool
                  then perform (os_remove audio_path) else Ret tt)
              (fun _ => Ret a))) w
    = (Returns a, w1, tr)
    /\ files_written tr = [] /\ summarized_chunks tr = [].
Proof.
  perform_next (os_path_exists audio_path) w present w1.
  destruct present.
  - perform_next (os_remove audio_path) w1 u w2. cbn [run].
    eexists _, _. split; [reflexivity|]. split; reflexivity.
  - cbn [bind run]. eexists _, _.
    split; [reflexivity|]. split; reflexivity.
Qed.

Lemma process_video_short (video_path language output_file : str) (w : env) :
  short_speech respond ->
  exists transcript timestamps w' tr,
    run respond (process_video video_path language output_file) w
    = (Returns (Some (MkNotes transcript [] timestamps)), w', tr)
    /\ files_written tr
       = [(output_file, concat (notes_writes [] timestamps))]
    /\ summarized_chunks tr = [].
Proof.
  intros Hshort. unfold process_video. rewrite !run_print_then, run_bind.
  destruct (extract_audio_ok video_path default_audio_path w)
    as (w1 & tr1 & R1 & F1 & S1).
  rewrite R1. change (falsy (Some default_audio_path)) with false.
  cbv beta iota. rewrite run_bind.
  destruct (transcribe_ok default_audio_path language w1)
    as (segments & info & w2 & tr2 & E2 & R2 & F2 & S2).
  rewrite R2. rewrite run_bind, summarize_run.
  pose proof (Hshort _ _ _ _ _ _ E2) as Hchunks.
  set (text := strip (fst (transcribe_loop segments [] []))) in *.
  set (stamps := snd (transcribe_loop segments [] [])) in *.
  destruct (summarize_loop_short env respond 130 _ Hchunks 0
              (length (make_chunks text)) [] w2) as (tr3 & R3 & S3 & F3).
  rewrite R3. change (format_bullet_points []) with (@nil codepoint).
  rewrite run_bind.
  destruct (save_notes_ok text [] output_file stamps w2)
    as (w4 & tr4 & R4 & F4 & S4).
  rewrite R4.
  destruct (cleanup_ok default_audio_path
              (Some (MkNotes text [] stamps)) w4)
    as (w5 & tr5 & R5 & F5 & S5).
  rewrite R5. exists text, stamps. eexists _, _.
  split; [reflexivity|].
  cbn [files_written summarized_chunks].
  rewrite !files_written_app, !summarized_chunks_app.
  cbn [files_written summarized_chunks].
  rewrite !files_written_app, !summarized_chunks_app.
  rewrite F1, F2, F3, F4, F5, S1, S2, S3, S4, S5. split; reflexivity.
Qed.

End QuietPipeline.

(** ** Transcripts too short to summarize *)

Lemma length_concat_In {A : Type} (x : list A) (l : list (list A)) :
  In x l -> length x <= length (concat l).
Proof.
  induction l as [|y l IH]; [contradiction|].
  intros [->|H]; simpl; rewrite length_app; [lia|].
  specialize (IH H). lia.
Qed.

Lemma few_words_few_per_chunk (text : str) (n : nat) :
  length (split text) <= n ->
  Forall (fun chunk => length (split chunk) <= n) (make_chunks text).
Proof.
  intros H. apply Forall_forall. intros chunk Hin.
  destruct (make_chunks_spec text) as (gs & _ & Hgs & _ & Hsplit).
  assert (E : concat (map split (make_chunks text)) = split text)
    by (rewrite Hsplit, Hgs; apply all_groups_concat).
  rewrite <- E in H.
  eapply Nat.le_trans; [|exact H].
  apply length_concat_In. now apply in_map.
Qed.

(** C10: a transcript of at most 50 words has no chunk of more than 50
    words; when no chunk has more than 50 words [summarize] returns the
    empty string without calling the model, whatever the environment; and
    when in addition no library call raises, [process_video] returns the
    notes (not [None]) and has written the output file once, its KEY
    TAKEAWAYS body being the empty summary followed by two newlines. *)
Theorem short_transcript_still_saved :
  (forall text,
      length (split text) <= 50 ->
      Forall (fun chunk => length (split chunk) <= 50) (make_chunks text))
  /\ (forall (env : Type)
            (respond : forall c : call, env -> (exn + resp c) * env)
            text max_length w,
         Forall (fun chunk => length (split chunk) <= 50) (make_chunks text) ->
         fst (run respond (summarize text max_length) w) = (Returns [], w)
         /\ summarized_chunks (snd (run respond (summarize text max_length) w))
            = [])
  /\ (forall (env : Type)
            (respond : forall c : call, env -> (exn + resp c) * env)
            video_path language output_file w,
         never_raises respond ->
         short_speech respond ->
         exists transcript timestamps w' tr,
           run respond (process_video video_path language output_file) w
           = (Returns (Some (MkNotes transcript [] timestamps)), w', tr)
           /\ files_written tr
              = [(output_file, concat (notes_writes [] timestamps))]
           /\ nth 5 (notes_writes [] timestamps) [] = nl ++ nl
           /\ summarized_chunks tr = []).
Proof.
  split; [|split].
  - intros text. apply few_words_few_per_chunk.
  - intros env respond text max_length w H. rewrite summarize_run.
    destruct (summarize_loop_short env respond max_length _ H 0
                (length (make_chunks text)) [] w) as (tr & R & S1 & _).
    rewrite R. cbn [fst snd summarized_chunks].
    rewrite summarized_chunks_app, S1. split; reflexivity.
  - intros env respond video_path language output_file w Hq Hs.
    destruct (process_video_short env respond Hq video_path language
                output_file w Hs) as (transcript & stamps & w' & tr & R & F & S1).
    exists transcript, stamps, w', tr. repeat split; assumption.
Qed.

(** The two-sentence lecture of [Studio.calm]: nine words, one chunk. *)
Lemma short_transcript_still_saved_calm :
  never_raises Studio.calm
  /\ short_speech Studio.calm
  /\ exists transcript timestamps w' tr,
       run Studio.calm
         (process_video Studio.lecture Studio.english Studio.notes_file) tt
       = (Returns (Some (MkNotes transcript [] timestamps)), w', tr)
       /\ files_written tr
          = [(Studio.notes_file, concat (notes_writes [] timestamps))]
       /\ nth 5 (notes_writes [] timestamps) [] = nl ++ nl
       /\ summarized_chunks tr = [].
Proof.
  assert (Hq : never_raises Studio.calm).
  { intros c w. destruct c; eexists; reflexivity. }
  assert (Hs : short_speech Studio.calm).
  { intros audio_path language beam_size w segments info H.
    cbn in H. injection H as <- <-. vm_compute. repeat constructor. }
  split; [exact Hq|]. split; [exact Hs|].
  exact (proj2 (proj2 short_transcript_still_saved) unit Studio.calm
           Studio.lecture Studio.english Studio.notes_file tt Hq Hs).
Defined.

(** ** Bullet points *)

Section BulletFacts.

Lemma sentence_loop_spec (sentences : list str) :
  forall bullet_points,
    sentence_loop sentences bullet_points
    = bullet_points ++ map bulleted (filter meaningful (map strip sentences)).
Proof.
  induction sentences as [|sentence rest IH]; intros bullet_points.
  - simpl. now rewrite app_nil_r.
  - cbn [sentence_loop map filter]. unfold meaningful at 1.
    destruct (15 <? length (strip sentence)); rewrite IH.
    + now rewrite <- app_assoc.
    + reflexivity.
Qed.

Lemma summary_loop_spec (summaries : list str) :
  forall bullet_points,
    summary_loop summaries bullet_points
    = bullet_points
      ++ map bulleted
           (filter meaningful (map strip (flat_map sentences_of summaries))).
Proof.
  induction summaries as [|summary rest IH]; intros bullet_points.
  - simpl. now rewrite app_nil_r.
  - cbn [summary_loop flat_map]. rewrite IH, sentence_loop_spec.
    now rewrite map_app, filter_app, map_app, app_assoc.
Qed.

End BulletFacts.

(** ** Timestamp lines *)

Section TimestampFacts.

Lemma timestamp_loop_kept (timestamps : list timestamp) :
  forall i,
    timestamp_loop i timestamps = map timestamp_line (kept_from i timestamps).
Proof.
  unfold kept_from.
  induction timestamps as [|ts rest IH]; intros i; [reflexivity|].
  cbn [timestamp_loop length seq combine filter fst].
  destruct ((i mod 5 =? 0) && (i <? 40)); cbn [map snd]; now rewrite IH.
Qed.

End TimestampFacts.

(** A line of the TIMESTAMPS section: 125.5 seconds is [02:05]. *)
Example timestamp_line_125 :
  timestamp_line
    (Timestamp (dyadic 251 (-1)) (dyadic 130 0)
       (lit " Next topic."))
  = lit "[02:05]  Next topic." ++ nl.
Proof. vm_compute. reflexivity. Qed.

(** The floats at the edges, as CPython computes [//] and [%]: for -1e-20
    the floor division gives -1 and the remainder, -1e-20 + 60, rounds to
    60.0; for 1e19 the quotient is the double next to 1e19 / 60. *)
Example timestamp_edges :
  (minutes_of (dyadic (-6646139978924579) (-119)),
   seconds_of (dyadic (-6646139978924579) (-119))) = (-1, 60)%Z
  /\ (minutes_of (dyadic 19073486328125 19),
      seconds_of (dyadic 19073486328125 19)) = (166666666666666656, 40)%Z
  /\ (minutes_of (dyadic 8444249301319679 (-47)),
      seconds_of (dyadic 8444249301319679 (-47))) = (0, 59)%Z.
Proof. vm_compute. repeat split. Qed.

(** ** Sentence splitting *)

Section SplitterFacts.

Lemma contains_tail (p : str) (c : codepoint) (s : str) :
  contains p (c :: s) = false -> contains p s = false.
Proof.
  cbn [contains]. intros H. now apply orb_false_iff in H as [_ H].
Qed.

Lemma contains_head (p : str) (s : str) :
  contains p s = false -> starts_with p s = false.
Proof.
  destruct s; cbn [contains]; intros H; now apply orb_false_iff in H as [H _].
Qed.

Lemma no_delimiter_tail (c : codepoint) (s : str) :
  no_delimiter (c :: s) = true -> no_delimiter s = true.
Proof.
  unfold no_delimiter. rewrite !andb_true_iff, !negb_true_iff.
  intros ((((H1 & H2) & H3) & H4) & H5).
  repeat split; try (eapply contains_tail; eassumption).
  cbn [digit_then_paren] in H5. now apply orb_false_iff in H5 as [_ H5].
Qed.

(** With no digit before a closing parenthesis in [s], and [s] not starting
    with one once digits have been read, [\d+\)] does not match. *)
Lemma match_digits_paren_none (s : str) :
  forall seen,
    digit_then_paren s = false ->
    (0 <? seen) && starts_with [close_paren] s = false ->
    match_digits_paren seen s = None.
Proof.
  induction s as [|c s IH]; intros seen Hd Hs; [reflexivity|].
  cbn [match_digits_paren]. cbn [digit_then_paren] in Hd.
  apply orb_false_iff in Hd as [Hc Hd].
  destruct (isdecimal c) eqn:E.
  - apply IH; [assumption|]. cbn [andb] in Hc. now rewrite Hc.
  - cbn [starts_with] in Hs. rewrite andb_true_r in Hs.
    rewrite N.eqb_sym, andb_comm, Hs. reflexivity.
Qed.

Lemma match_delimiter_none (s : str) :
  no_delimiter s = true -> match_delimiter s = None.
Proof.
  destruct s as [|c s]; [reflexivity|].
  unfold no_delimiter. rewrite !andb_true_iff, !negb_true_iff.
  intros ((((H1 & H2) & H3) & H4) & H5).
  apply contains_head in H1, H2, H3, H4.
  change (hyphen :: lit " ") with (hyphen :: [32%N]) in H3.
  cbn [starts_with] in H1, H2, H3, H4. rewrite andb_true_r in H1, H2, H4.
  cbn [match_delimiter]. change (lit " ") with [32%N]. cbn [starts_with].
  rewrite (N.eqb_sym c newline), H1, (N.eqb_sym c bullet), H2,
    (N.eqb_sym c hyphen), H3, (N.eqb_sym c asterisk), H4.
  apply match_digits_paren_none; [assumption | reflexivity].
Qed.

Lemma re_split_from_plain (s : str) :
  forall cur, no_delimiter s = true -> re_split_from 0 cur s = [cur ++ s].
Proof.
  induction s as [|c s IH]; intros cur H.
  - simpl. now rewrite app_nil_r.
  - cbn [re_split_from]. rewrite (match_delimiter_none _ H).
    rewrite IH by (eapply no_delimiter_tail; eassumption).
    now rewrite <- app_assoc.
Qed.

(** C8, as the code has it: a text with none of the delimiters yields its
    whitespace-stripped form as the only element, and nothing at all when
    that form is empty. *)
Theorem split_without_delimiters (text : str) :
  no_delimiter text = true ->
  split_into_sentences text
  = match strip text with
    | [] => []
    | _ :: _ => [strip text]
    end.
Proof.
  intros H. unfold split_into_sentences, re_split.
  rewrite re_split_from_plain by assumption. cbn [app keep_stripped].
  destruct (strip text); reflexivity.
Qed.

End SplitterFacts.

(** A text with a leading space, and the empty text: neither holds a
    delimiter, and neither comes back as the only element. *)
Lemma plain_text_not_returned_whole :
  no_delimiter (lit " a") = true
  /\ split_into_sentences (lit " a") = [lit "a"]
  /\ no_delimiter [] = true
  /\ split_into_sentences [] = [].
Proof. vm_compute. repeat split. Qed.

(** A plain sentence is returned as it is. *)
Lemma split_without_delimiters_paris :
  no_delimiter (lit "Paris is the capital of France.") = true
  /\ split_into_sentences (lit "Paris is the capital of France.")
     = [lit "Paris is the capital of France."].
Proof.
  assert (H : no_delimiter (lit "Paris is the capital of France.") = true)
    by reflexivity.
  split; [exact H|].
  rewrite (split_without_delimiters _ H). reflexivity.
Defined.

(** The splitter on a bulleted, numbered text. *)
Example split_into_sentences_list :
  split_into_sentences (lit "1) foo - bar * baz 12)x 3 ) -y")
  = [lit "foo"; lit "bar"; lit "baz"; lit "x 3 ) -y"].
Proof. vm_compute. reflexivity. Qed.

(** * Further properties of the code *)

(** ** The chunker at its edges *)

Section ChunkEdges.

Lemma groups_below_threshold (words : list str) :
  forall cur,
    weight (cur ++ words) < max_chunk_length ->
    groups words cur = ([], cur ++ words).
Proof.
  induction words as [|w words IH]; intros cur H.
  - now rewrite app_nil_r.
  - cbn [groups].
    assert (Hw : weight (cur ++ [w]) < max_chunk_length).
    { rewrite !weight_app in *. simpl in *. lia. }
    apply Nat.leb_gt in Hw. rewrite Hw.
    rewrite IH; rewrite <- app_assoc; [reflexivity | exact H].
Qed.

(** X1: a transcript without any word gives no chunk; a transcript whose
    words, with one separator each, stay below 1024 gives exactly one chunk,
    its words joined by single spaces; and every chunk of any transcript is
    its own words joined by single spaces. *)
Theorem chunks_normalise_whitespace (text : str) :
  (split text = [] -> make_chunks text = [])
  /\ (split text <> [] ->
      weight (split text) < max_chunk_length ->
      make_chunks text = [join space (split text)])
  /\ Forall (fun chunk => join space (split chunk) = chunk) (make_chunks text).
Proof.
  split; [|split].
  - intros H. rewrite make_chunks_groups, H. reflexivity.
  - intros Hne Hw. rewrite make_chunks_groups. unfold all_groups.
    rewrite (groups_below_threshold (split text) [] Hw). cbn [fst snd app].
    destruct (split text); [contradiction | reflexivity].
  - destruct (make_chunks_spec text) as (gs & Hmk & _ & HF & _).
    rewrite Hmk. apply Forall_map.
    eapply Forall_impl; [|exact HF]. intros g [_ Hw]. simpl.
    now rewrite split_join.
Qed.

End ChunkEdges.

(** Nine words with ragged whitespace: one chunk, single spaces. *)
Lemma chunks_normalise_whitespace_ragged :
  let text := lit "  Welcome to   the lecture.  Today we look at sorting. " in
  split text <> []
  /\ weight (split text) < max_chunk_length
  /\ make_chunks text
     = [lit "Welcome to the lecture. Today we look at sorting."].
Proof.
  intros text.
  assert (H1 : split text <> []) by (vm_compute; discriminate).
  assert (H2 : weight (split text) < max_chunk_length)
    by (apply Nat.ltb_lt; vm_compute; reflexivity).
  split; [exact H1|]. split; [exact H2|].
  rewrite (proj1 (proj2 (chunks_normalise_whitespace text)) H1 H2).
  vm_compute. reflexivity.
Defined.

(** ** How many timestamp lines *)

Section TimestampCount.

Lemma cap_step (i : nat) :
  (Nat.min (S i) 40 + 4) / 5
  = (Nat.min i 40 + 4) / 5 + (if (i mod 5 =? 0) && (i <? 40) then 1 else 0).
Proof.
  destruct (i <? 40) eqn:E.
  - apply Nat.ltb_lt in E.
    rewrite (Nat.min_l i 40), (Nat.min_l (S i) 40) by lia.
    pose proof (Nat.div_mod_eq i 5). pose proof (Nat.mod_upper_bound i 5).
    pose proof (Nat.div_mod_eq (i + 4) 5).
    pose proof (Nat.mod_upper_bound (i + 4) 5).
    pose proof (Nat.div_mod_eq (S i + 4) 5).
    pose proof (Nat.mod_upper_bound (S i + 4) 5).
    destruct (i mod 5 =? 0) eqn:M;
      [apply Nat.eqb_eq in M | apply Nat.eqb_neq in M]; cbn [andb]; lia.
  - apply Nat.ltb_ge in E. rewrite andb_false_r.
    rewrite (Nat.min_r i 40), (Nat.min_r (S i) 40) by lia. lia.
Qed.

Lemma timestamp_loop_count (timestamps : list timestamp) :
  forall i,
    length (timestamp_loop i timestamps) + (Nat.min i 40 + 4) / 5
    = (Nat.min (i + length timestamps) 40 + 4) / 5.
Proof.
  induction timestamps as [|ts rest IH]; intros i.
  - simpl. now rewrite Nat.add_0_r.
  - cbn [timestamp_loop length]. specialize (IH (S i)).
    rewrite cap_step in IH. replace (i + S (length rest))
      with (S i + length rest) by lia.
    destruct ((i mod 5 =? 0) && (i <? 40)); cbn [length]; lia.
Qed.

End TimestampCount.

(** ** Stripping *)

Section StripFacts.

Lemma lstrip_split (s : str) : exists ws, blank ws /\ s = ws ++ lstrip s.
Proof.
  induction s as [|c s (ws & Hws & E)].
  - now exists [].
  - cbn [lstrip]. destruct (isspace c) eqn:Hc.
    + exists (c :: ws). split.
      * unfold blank. simpl. now rewrite Hc.
      * simpl. now rewrite <- E.
    + now exists [].
Qed.

Lemma lstrip_head (s : str) :
  match lstrip s with
  | [] => True
  | c :: _ => isspace c = false
  end.
Proof.
  induction s as [|c s IH]; [exact I|].
  cbn [lstrip]. destruct (isspace c) eqn:Hc; [exact IH | exact Hc].
Qed.

Lemma lstrip_fixed (c : codepoint) (s : str) :
  isspace c = false -> lstrip (c :: s) = c :: s.
Proof. intros H. cbn [lstrip]. now rewrite H. Qed.

Lemma blank_rev (ws : str) : blank ws -> blank (rev ws).
Proof.
  unfold blank. intros H. apply forallb_forall. intros c Hc.
  apply in_rev in Hc. now apply (proj1 (forallb_forall _ _) H).
Qed.

Lemma rstrip_split (s : str) : exists ws, blank ws /\ s = rstrip s ++ ws.
Proof.
  destruct (lstrip_split (rev s)) as (ws & Hws & E).
  exists (rev ws). split; [now apply blank_rev|].
  unfold rstrip. rewrite <- rev_app_distr, <- E. now rewrite rev_involutive.
Qed.

Lemma rstrip_fixed (s : str) (c : codepoint) :
  isspace c = false -> rstrip (s ++ [c]) = s ++ [c].
Proof.
  intros H. unfold rstrip. rewrite rev_app_distr. cbn [rev app].
  rewrite lstrip_fixed by assumption.
  cbn [rev]. now rewrite rev_involutive.
Qed.

Lemma rstrip_last (s : str) :
  rstrip s = [] \/ exists t c, rstrip s = t ++ [c] /\ isspace c = false.
Proof.
  unfold rstrip. pose proof (lstrip_head (rev s)) as H.
  destruct (lstrip (rev s)) as [|c t]; [now left|].
  right. exists (rev t), c. split; [reflexivity | exact H].
Qed.

Lemma strip_split (s : str) :
  exists ws1 ws2, blank ws1 /\ blank ws2 /\ s = ws1 ++ strip s ++ ws2.
Proof.
  destruct (lstrip_split s) as (ws1 & H1 & E1).
  destruct (rstrip_split (lstrip s)) as (ws2 & H2 & E2).
  exists ws1, ws2. repeat split; try assumption.
  unfold strip. now rewrite <- E2.
Qed.

(** A stripped string does not change when stripped again. *)
Lemma strip_idempotent (s : str) : strip (strip s) = strip s.
Proof.
  unfold strip. assert (Hu := lstrip_head s).
  remember (lstrip s) as u eqn:Eu. clear Eu.
  destruct (rstrip_split u) as (ws & _ & E).
  destruct (rstrip_last u) as [H | (t & c & H & Hc)].
  - now rewrite H.
  - rewrite H in *.
    assert (L : lstrip (t ++ [c]) = t ++ [c]).
    { destruct t as [|c0 t].
      - now apply lstrip_fixed.
      - rewrite E in Hu. cbn [app] in *. now apply lstrip_fixed. }
    rewrite L. now apply rstrip_fixed.
Qed.

Lemma split_from_blank (ws : str) :
  blank ws -> forall cur, split_from cur ws = flush_word cur.
Proof.
  unfold blank. induction ws as [|c ws IH]; intros H cur; [reflexivity|].
  simpl in H. apply andb_prop in H as [Hc H].
  cbn [split_from]. rewrite Hc, (IH H). simpl. apply app_nil_r.
Qed.

Lemma split_from_app_blank (s ws : str) :
  blank ws -> forall cur, split_from cur (s ++ ws) = split_from cur s.
Proof.
  intros H. induction s as [|c s IH]; intros cur.
  - now apply split_from_blank.
  - cbn [app split_from]. destruct (isspace c); now rewrite IH.
Qed.

Lemma split_blank_app (ws s : str) : blank ws -> split (ws ++ s) = split s.
Proof.
  unfold blank, split. induction ws as [|c ws IH]; intros H; [reflexivity|].
  simpl in H. apply andb_prop in H as [Hc H].
  cbn [app split_from]. rewrite Hc. now apply IH.
Qed.

(** Surrounding whitespace holds no word. *)
Lemma split_strip (s : str) : split (strip s) = split s.
Proof.
  destruct (strip_split s) as (ws1 & ws2 & H1 & H2 & E).
  rewrite E at 2. rewrite split_blank_app by assumption.
  unfold split. now rewrite split_from_app_blank.
Qed.

Lemma split_from_app_space (s t : str) :
  forall cur,
    split_from cur (s ++ lit " " ++ t) = split_from cur s ++ split t.
Proof.
  induction s as [|c s IH]; intros cur.
  - reflexivity.
  - cbn [app split_from]. destruct (isspace c).
    + change ((c :: s) ++ lit " " ++ t) with (c :: s ++ lit " " ++ t).
      now rewrite IH, app_assoc.
    + apply IH.
Qed.

End StripFacts.

(** ** Transcription *)

Section TranscribeFacts.

Variable env : Type.
Variable respond : forall c : call, env -> (exn + resp c) * env.

Lemma transcribe_loop_spec (segments : list segment) :
  forall transcript timestamps,
    transcribe_loop segments transcript timestamps
    = (transcript ++ concat (map (fun s => seg_text s ++ lit " ") segments),
       timestamps ++ map entry_of segments).
Proof.
  induction segments as [|s rest IH]; intros transcript timestamps.
  - simpl. now rewrite !app_nil_r.
  - cbn [transcribe_loop map concat]. rewrite IH.
    now rewrite <- !app_assoc.
Qed.

Lemma split_spoken (segments : list segment) :
  split (concat (map (fun s => seg_text s ++ lit " ") segments))
  = flat_map (fun s => split (seg_text s)) segments.
Proof.
  induction segments as [|s rest IH]; [reflexivity|].
  cbn [map concat flat_map]. rewrite <- app_assoc.
  unfold split at 1. rewrite split_from_app_space.
  now rewrite IH.
Qed.

(** X3: when the speech engine answers, [transcribe] returns a transcript
    whose words are the words of the segments in order, with no whitespace at
    either end, and one timestamp entry per segment, in order, with the
    segment's start, end and text. *)
Theorem transcribe_keeps_words (audio_path language : str) (w w1 : env)
    (segments : list segment) (info_language : str) :
  respond (whisper_transcribe audio_path language 5) w
  = (inr (segments, info_language), w1) ->
  exists transcript timestamps tr,
    run respond (transcribe audio_path language) w
    = (Returns (transcript, timestamps), w1, tr)
    /\ split transcript = flat_map (fun s => split (seg_text s)) segments
    /\ strip transcript = transcript
    /\ timestamps = map entry_of segments
    /\ length timestamps = length segments.
Proof.
  intros H. unfold transcribe. rewrite run_print_then, run_bind.
  unfold perform. cbn [run]. rewrite H. cbn [run].
  rewrite transcribe_loop_spec. cbn [app]. rewrite run_print_then.
  cbn [run]. eexists _, _, _. split; [reflexivity|].
  split; [now rewrite split_strip, split_spoken|].
  split; [apply strip_idempotent|].
  split; [reflexivity | apply length_map].
Qed.

End TranscribeFacts.

(** The two sentences of [Studio.calm]. *)
Lemma transcribe_keeps_words_calm :
  Studio.calm (whisper_transcribe default_audio_path Studio.english 5) tt
  = (inr (Studio.hello_segments, lit "en"), tt)
  /\ exists transcript timestamps tr,
       run Studio.calm (transcribe default_audio_path Studio.english) tt
       = (Returns (transcript, timestamps), tt, tr)
       /\ split transcript
          = flat_map (fun s => split (seg_text s)) Studio.hello_segments
       /\ strip transcript = transcript
       /\ timestamps = map entry_of Studio.hello_segments
       /\ length timestamps = length Studio.hello_segments.
Proof.
  assert (H : Studio.calm
                (whisper_transcribe default_audio_path Studio.english 5) tt
              = (inr (Studio.hello_segments, lit "en"), tt)) by reflexivity.
  split; [exact H|].
  exact (transcribe_keeps_words unit Studio.calm default_audio_path
           Studio.english tt tt Studio.hello_segments (lit "en") H).
Defined.

(** ** The shape of the sentences of chat.py *)

Section SentenceShape.

Lemma starts_with_app (p s t : str) :
  starts_with p s = true -> starts_with p (s ++ t) = true.
Proof.
  revert s. induction p as [|a p IH]; intros s H; [reflexivity|].
  destruct s as [|b s]; [discriminate|].
  cbn [starts_with app] in *. apply andb_prop in H as [H1 H2].
  now rewrite H1, (IH _ H2).
Qed.

Lemma match_digits_paren_app (b s : str) :
  forall seen n,
    match_digits_paren seen b = Some n ->
    match_digits_paren seen (b ++ s) = Some n.
Proof.
  induction b as [|c b IH]; intros seen n H; [discriminate|].
  cbn [match_digits_paren app] in *.
  destruct (isdecimal c); [now apply IH | exact H].
Qed.

(** A match at the start of [b] is still there when text follows. *)
Lemma match_delimiter_app (b s : str) (n : nat) :
  match_delimiter b = Some n -> match_delimiter (b ++ s) = Some n.
Proof.
  destruct b as [|c b]; [discriminate|].
  cbn [match_delimiter app].
  destruct (c =? newline)%N; [trivial|].
  destruct (c =? bullet)%N; [trivial|].
  destruct (c =? hyphen)%N eqn:Hh.
  - apply N.eqb_eq in Hh. subst c. cbn [andb].
    destruct (starts_with (lit " ") b) eqn:Hs.
    + now rewrite (starts_with_app _ _ s Hs).
    + intros H. vm_compute in H. discriminate.
  - cbn [andb]. destruct (c =? asterisk)%N; [trivial|].
    apply (match_digits_paren_app (c :: b) s).
Qed.

Lemma no_delimiter_cons (c : codepoint) (u : str) :
  match_delimiter (c :: u) = None ->
  no_delimiter u = true ->
  no_delimiter (c :: u) = true.
Proof.
  unfold no_delimiter. rewrite !andb_true_iff, !negb_true_iff.
  intros M ((((H1 & H2) & H3) & H4) & H5).
  cbn [match_delimiter] in M.
  destruct (c =? newline)%N eqn:E1; [discriminate|].
  destruct (c =? bullet)%N eqn:E2; [discriminate|].
  destruct ((c =? hyphen)%N && starts_with (lit " ") u) eqn:E3;
    [discriminate|].
  destruct (c =? asterisk)%N eqn:E4; [discriminate|].
  cbn [contains digit_then_paren]. rewrite H1, H2, H3, H4, H5, !orb_false_r.
  change (hyphen :: lit " ") with (hyphen :: [32%N]).
  change (lit " ") with [32%N] in E3.
  cbn [starts_with] in *. rewrite !andb_true_r.
  rewrite (N.eqb_sym newline c), (N.eqb_sym bullet c),
    (N.eqb_sym hyphen c), (N.eqb_sym asterisk c), E1, E2, E3, E4.
  repeat split.
  cbn [match_digits_paren] in M.
  destruct (isdecimal c); [|reflexivity]. cbn [andb].
  destruct u as [|d u]; [reflexivity|].
  destruct (close_paren =? d)%N eqn:E5; [|reflexivity].
  apply N.eqb_eq in E5. subst d. vm_compute in M. discriminate.
Qed.

(** No match at any position of [u] means no delimiter in [u]. *)
Lemma suffixes_clean (u : str) :
  (forall a b, u = a ++ b -> b <> [] -> match_delimiter b = None) ->
  no_delimiter u = true.
Proof.
  induction u as [|c u IH]; intros H; [reflexivity|].
  apply no_delimiter_cons.
  - apply (H [] (c :: u)); [reflexivity | discriminate].
  - apply IH. intros a b E Hb. apply (H (c :: a) b); [|assumption].
    now rewrite E.
Qed.

Lemma no_delimiter_app_r (a b : str) :
  no_delimiter (a ++ b) = true -> no_delimiter b = true.
Proof.
  induction a as [|c a IH]; intros H; [exact H|].
  apply IH. now apply (no_delimiter_tail c).
Qed.

Lemma no_delimiter_app_l (a r : str) :
  no_delimiter (a ++ r) = true -> no_delimiter a = true.
Proof.
  intros H. apply suffixes_clean. intros a1 b E Hb.
  destruct (match_delimiter b) as [n|] eqn:M; [|reflexivity].
  apply (match_delimiter_app b r) in M.
  rewrite E, <- app_assoc in H. apply no_delimiter_app_r in H.
  rewrite (match_delimiter_none _ H) in M. discriminate.
Qed.

Lemma no_delimiter_strip (l : str) :
  no_delimiter l = true -> no_delimiter (strip l) = true.
Proof.
  intros H. destruct (strip_split l) as (ws1 & ws2 & _ & _ & E).
  rewrite E in H. apply no_delimiter_app_r in H.
  now apply no_delimiter_app_l in H.
Qed.

Lemma suffix_snoc (cur a b : str) (c : codepoint) :
  cur ++ [c] = a ++ b -> b <> [] ->
  exists b0, b = b0 ++ [c] /\ cur = a ++ b0.
Proof.
  intros E Hb. destruct (exists_last Hb) as (b0 & c0 & ->).
  rewrite app_assoc in E. apply app_inj_tail in E as [E1 E2].
  subst c0. now exists b0.
Qed.

(** Every piece [re.split] returns is free of delimiters: [cur] holds code
    points at which the pattern did not match. *)
Lemma re_split_pieces (s : str) :
  forall skip cur,
    (skip = 0 ->
     forall a b, cur = a ++ b -> b <> [] -> match_delimiter (b ++ s) = None) ->
    (skip <> 0 -> cur = []) ->
    Forall (fun piece => no_delimiter piece = true) (re_split_from skip cur s).
Proof.
  induction s as [|c s IH]; intros skip cur Hinv Hcur.
  - cbn [re_split_from]. constructor; [|constructor].
    destruct skip as [|k].
    + apply suffixes_clean. intros a b E Hb.
      rewrite <- (app_nil_r b). now apply (Hinv eq_refl a).
    + now rewrite Hcur.
  - cbn [re_split_from]. destruct skip as [|k].
    + destruct (match_delimiter (c :: s)) as [n|] eqn:M.
      * constructor.
        -- apply suffixes_clean. intros a b E Hb.
           destruct (match_delimiter b) as [m|] eqn:Mb; [|reflexivity].
           apply (match_delimiter_app b (c :: s)) in Mb.
           rewrite (Hinv eq_refl a b E Hb) in Mb. discriminate.
        -- apply IH; [|reflexivity].
           intros _ a b E Hb. destruct a; destruct b; try discriminate.
           contradiction.
      * apply IH; [|intros H; contradiction].
        intros _ a b E Hb.
        destruct (suffix_snoc cur a b c E Hb) as (b0 & -> & E0).
        rewrite <- app_assoc. cbn [app].
        destruct b0 as [|c0 b0]; [exact M|].
        apply (Hinv eq_refl a); [exact E0 | discriminate].
    + rewrite (Hcur ltac:(discriminate)).
      apply IH; [|reflexivity].
      intros _ a b E Hb. destruct a; destruct b; try discriminate.
      contradiction.
Qed.

Lemma keep_stripped_shape (lines : list str) :
  Forall (fun piece => no_delimiter piece = true) lines ->
  Forall (fun u => u <> [] /\ strip u = u /\ no_delimiter u = true)
    (keep_stripped lines).
Proof.
  induction 1 as [|l lines Hl Hlines IH]; [constructor|].
  cbn [keep_stripped]. destruct (strip l) as [|c t] eqn:E; [exact IH|].
  constructor; [|exact IH]. rewrite <- E. repeat split.
  - rewrite E. discriminate.
  - apply strip_idempotent.
  - now apply no_delimiter_strip.
Qed.

(** X4: every sentence [split_into_sentences] returns is non-empty, has no
    whitespace at either end, holds none of the delimiters, and is returned
    unchanged, alone, when split again. *)
Theorem sentences_are_clean (text : str) :
  Forall (fun u => u <> []
                   /\ strip u = u
                   /\ no_delimiter u = true
                   /\ split_into_sentences u = [u])
    (split_into_sentences text).
Proof.
  assert (H : Forall (fun u => u <> [] /\ strip u = u /\ no_delimiter u = true)
                (split_into_sentences text)).
  { apply keep_stripped_shape. apply re_split_pieces; [|intros H; contradiction].
    intros _ a b E Hb. destruct a; destruct b; try discriminate.
    contradiction. }
  eapply Forall_impl; [|exact H]. intros u (Hne & Hs & Hd).
  repeat split; try assumption.
  unfold split_into_sentences, re_split.
  rewrite re_split_from_plain by assumption. cbn [app keep_stripped].
  rewrite Hs. destruct u; [contradiction | reflexivity].
Qed.

End SentenceShape.

(** ** The shape of the bullet points *)

Section BulletShape.

Lemma contains_app_r (p a b : str) :
  contains p (a ++ b) = false -> contains p b = false.
Proof.
  induction a as [|c a IH]; intros H; [exact H|].
  apply IH. now apply (contains_tail p c).
Qed.

Lemma contains_app_l (p m b : str) :
  contains p (m ++ b) = false -> contains p m = false.
Proof.
  induction m as [|c m IH]; intros H.
  - cbn [contains]. rewrite orb_false_r.
    destruct (starts_with p []) eqn:E; [|reflexivity].
    apply (starts_with_app _ _ b) in E.
    apply contains_head in H. cbn [app] in *. congruence.
  - cbn [app contains] in *. apply orb_false_iff in H as [H1 H2].
    rewrite (IH H2), orb_false_r.
    destruct (starts_with p (c :: m)) eqn:E; [|reflexivity].
    apply (starts_with_app _ _ b) in E. cbn [app] in E. congruence.
Qed.

(** Each piece of [split_on] lies in the string and holds no separator;
    the first piece starts the string. *)
Lemma split_on_shape (sep : codepoint) (s : str) :
  exists piece pieces,
    split_on sep s = piece :: pieces
    /\ (exists b, s = piece ++ b)
    /\ forallb (fun c => negb (c =? sep)%N) piece = true
    /\ Forall (fun q =>
                 (exists a b, s = a ++ q ++ b)
                 /\ forallb (fun c => negb (c =? sep)%N) q = true)
         pieces.
Proof.
  induction s as [|c s (p & ps & E & (b & Hb) & Hp & Hps)].
  - exists [], []. repeat split; [now exists [] | constructor].
  - assert (Hshift :
              Forall (fun q =>
                        (exists a b, c :: s = a ++ q ++ b)
                        /\ forallb (fun c => negb (c =? sep)%N) q = true) ps).
    { eapply Forall_impl; [|exact Hps].
      intros q [(a1 & b1 & H1) Hq]. split; [|exact Hq].
      exists (c :: a1), b1. now rewrite H1. }
    cbn [split_on]. rewrite E. destruct (c =? sep)%N eqn:Ec.
    + exists [], (p :: ps). repeat split.
      * now exists (c :: s).
      * constructor; [|exact Hshift]. split; [|exact Hp].
        exists [c], b. now rewrite Hb.
    + exists (c :: p), ps. repeat split.
      * exists b. now rewrite Hb.
      * simpl. now rewrite Ec, Hp.
      * exact Hshift.
Qed.

Lemma split_on_pieces (sep : codepoint) (s : str) :
  Forall (fun q =>
            (exists a b, s = a ++ q ++ b)
            /\ forallb (fun c => negb (c =? sep)%N) q = true)
    (split_on sep s).
Proof.
  destruct (split_on_shape sep s) as (p & ps & E & (b & Hb) & Hp & Hps).
  rewrite E. constructor; [|exact Hps]. split; [|exact Hp].
  now exists [], b.
Qed.

Lemma starts_with_cons (a b : codepoint) (p s : str) :
  starts_with (a :: p) (b :: s) = ((a =? b)%N && starts_with p s).
Proof. reflexivity. Qed.

(** What [replace] does with the boundary: one step of the scan. *)
Lemma replace_boundary (rest : str) :
  replace dot_space (lit ".|") (46%N :: 32%N :: rest)
  = 46%N :: pipe :: replace dot_space (lit ".|") rest.
Proof. reflexivity. Qed.

Lemma replace_other (c : codepoint) (s : str) :
  starts_with dot_space (c :: s) = false ->
  replace dot_space (lit ".|") (c :: s)
  = c :: replace dot_space (lit ".|") s.
Proof.
  intros H. unfold replace. cbn [replace_from]. now rewrite H.
Qed.

Lemma replace_nil : replace dot_space (lit ".|") [] = [].
Proof. reflexivity. Qed.

(** The scan keeps the first code point. *)
Lemma replace_head (c : codepoint) (s : str) :
  starts_with [c] (replace dot_space (lit ".|") s) = starts_with [c] s.
Proof.
  destruct s as [|d s]; [reflexivity|].
  destruct (starts_with dot_space (d :: s)) eqn:E.
  - change dot_space with [46%N; 32%N] in E. cbn [starts_with] in E.
    apply andb_prop in E as [E1 E2]. apply N.eqb_eq in E1. subst d.
    destruct s as [|e s]; [discriminate|].
    rewrite andb_true_r in E2. apply N.eqb_eq in E2. subst e.
    now rewrite replace_boundary.
  - now rewrite replace_other.
Qed.

(** After the scan no boundary is left. *)
Lemma replace_leaves_no_boundary (n : nat) :
  forall s,
    length s <= n ->
    contains dot_space (replace dot_space (lit ".|") s) = false.
Proof.
  induction n as [|n IH]; intros s Hn.
  - destruct s; [reflexivity | simpl in Hn; lia].
  - destruct s as [|d s]; [reflexivity|].
    destruct (starts_with dot_space (d :: s)) eqn:E.
    + change dot_space with [46%N; 32%N] in E. cbn [starts_with] in E.
      apply andb_prop in E as [E1 E2]. apply N.eqb_eq in E1. subst d.
      destruct s as [|e s]; [discriminate|].
      rewrite andb_true_r in E2. apply N.eqb_eq in E2. subst e.
      rewrite replace_boundary.
      assert (IHs : contains dot_space (replace dot_space (lit ".|") s) = false)
        by (apply IH; simpl in Hn; lia).
      change dot_space with [46%N; 32%N] in *.
      cbn [contains starts_with]. now rewrite IHs.
    + rewrite replace_other by assumption.
      assert (IHs : contains dot_space (replace dot_space (lit ".|") s) = false)
        by (apply IH; simpl in Hn; lia).
      cbn [contains]. rewrite IHs, orb_false_r.
      change dot_space with [46%N; 32%N] in *.
      rewrite starts_with_cons in *. now rewrite replace_head.
Qed.

Lemma forallb_middle {A : Type} (f : A -> bool) (a m b : list A) :
  forallb f (a ++ m ++ b) = true -> forallb f m = true.
Proof.
  rewrite !forallb_app. intros H.
  apply andb_prop in H as [_ H]. now apply andb_prop in H as [H _].
Qed.

(** A fragment as [format_bullet_points] keeps it. *)
Lemma fragments_shape (summary : str) :
  Forall (fun fragment =>
            strip fragment = fragment
            /\ pipe_free fragment
            /\ contains dot_space fragment = false)
    (map strip (sentences_of summary)).
Proof.
  apply Forall_map. unfold sentences_of.
  eapply Forall_impl; [|apply split_on_pieces].
  intros q [(a & b & E) Hq]. cbn beta.
  destruct (strip_split q) as (ws1 & ws2 & _ & _ & Es).
  split; [apply strip_idempotent|]. split.
  - unfold pipe_free. rewrite Es in Hq. now apply forallb_middle in Hq.
  - pose proof (replace_leaves_no_boundary (length summary) summary
                  (Nat.le_refl _)) as H.
    change (lit ". ") with dot_space in E. rewrite E in H.
    apply contains_app_r, contains_app_l in H.
    rewrite Es in H. now apply contains_app_r, contains_app_l in H.
Qed.

(** X5: every bullet line is the bullet glyph, a space, and a fragment that
    has more than 15 code points, no whitespace at either end, no [|] and no
    full stop followed by a space: at most one sentence per line. *)
Theorem bullets_hold_one_sentence (summaries : list str) :
  Forall (fun line =>
            exists fragment,
              line = bullet :: lit " " ++ fragment
              /\ 15 < length fragment
              /\ strip fragment = fragment
              /\ pipe_free fragment
              /\ contains dot_space fragment = false)
    (bullet_points_of summaries).
Proof.
  unfold bullet_points_of. rewrite summary_loop_spec. cbn [app].
  apply Forall_map, Forall_forall. intros fragment Hin.
  apply filter_In in Hin as [Hin Hk]. apply Nat.ltb_lt in Hk.
  exists fragment. split; [reflexivity|]. split; [exact Hk|].
  rewrite flat_map_concat_map, concat_map in Hin.
  apply in_concat in Hin as (l & Hl & Hf).
  rewrite map_map in Hl. apply in_map_iff in Hl as (summary & <- & _).
  exact (proj1 (Forall_forall _ _) (fragments_shape summary) fragment Hf).
Qed.

End BulletShape.

(** ** Every run of the pipeline *)

Section PipelineRuns.

Variable env : Type.
Variable respond : forall c : call, env -> (exn + resp c) * env.

(** [process_video], stage by stage. *)
Lemma process_video_run (video_path language output_file : str) (w : env) :
  run respond (process_video video_path language output_file) w
  = match run respond (extract_audio video_path default_audio_path) w with
    | (Raises e, w1, tr1) => (Raises e, w1, banner video_path ++ tr1)
    | (Returns audio_path, w1, tr1) =>
        if falsy audio_path
        then (Returns None, w1, banner video_path ++ tr1)
        else
          match run respond (transcribe (path_of audio_path) language) w1 with
          | (Raises e, w2, tr2) =>
              (Raises e, w2, banner video_path ++ tr1 ++ tr2)
          | (Returns (t, ts), w2, tr2) =>
              match run respond (summarize t 130) w2 with
              | (Raises e, w3, tr3) =>
                  (Raises e, w3, banner video_path ++ tr1 ++ tr2 ++ tr3)
              | (Returns s, w3, tr3) =>
                  match run respond (save_notes t s ts output_file) w3 with
                  | (Raises e, w4, tr4) =>
                      (Raises e, w4,
                       banner video_path ++ tr1 ++ tr2 ++ tr3 ++ tr4)
                  | (Returns _, w4, tr4) =>
                      match run respond
                              (cleanup_then (path_of audio_path)
                                 (Some (MkNotes t s ts))) w4 with
                      | (o, w5, tr5) =>
                          (o, w5,
                           banner video_path
                           ++ tr1 ++ tr2 ++ tr3 ++ tr4 ++ tr5)
                      end
                  end
              end
          end
    end.
Proof.
  unfold process_video. rewrite !run_print_then, run_bind.
  destruct (run respond (extract_audio video_path default_audio_path) w)
    as [[[audio_path|e] w1] tr1]; [|reflexivity].
  destruct (falsy audio_path) eqn:F.
  { cbn [run]. now rewrite app_nil_r. }
  fold (path_of audio_path). rewrite run_bind.
  destruct (run respond (transcribe (path_of audio_path) language) w1)
    as [[[[t ts]|e] w2] tr2]; [|reflexivity].
  rewrite run_bind.
  destruct (run respond (summarize t 130) w2) as [[[s|e] w3] tr3];
    [|reflexivity].
  rewrite run_bind.
  destruct (run respond (save_notes t s ts output_file) w3)
    as [[[[]|e] w4] tr4]; [|reflexivity].
  fold (cleanup_then (path_of audio_path) (Some (MkNotes t s ts))).
  destruct (run respond
              (cleanup_then (path_of audio_path) (Some (MkNotes t s ts))) w4)
    as [[o w5] tr5].
  reflexivity.
Qed.

End PipelineRuns.

Section StageFacts.

Variable env : Type.
Variable respond : forall c : call, env -> (exn + resp c) * env.

(** X6: [extract_audio] never raises. It returns the audio path exactly when
    opening the video, writing the audio and closing the clip all succeeded,
    and [None] when one of them raised. *)
Theorem extract_audio_never_raises (video_path audio_path : str) (w : env) :
  (fst (fst (run respond (extract_audio video_path audio_path) w))
   = Returns (Some audio_path)
   /\ exists clip w1 w2 w3,
        respond (VideoFileClip video_path) w = (inr clip, w1)
        /\ respond (write_audiofile clip audio_path) w1 = (inr tt, w2)
        /\ respond (video_close clip) w2 = (inr tt, w3))
  \/ (fst (fst (run respond (extract_audio video_path audio_path) w))
      = Returns None
      /\ exists e,
           fst (fst (run respond (extract_audio_body video_path audio_path) w))
           = Raises e).
Proof.
  unfold extract_audio. rewrite run_print_then, run_try_except.
  unfold extract_audio_body, perform. cbn [bind run].
  destruct (respond (VideoFileClip video_path) w) as [[e|clip] w1] eqn:E1;
    cbn [bind run fst]; [right; split; [reflexivity | eexists; reflexivity]|].
  destruct (respond (write_audiofile clip audio_path) w1) as [[e|[]] w2] eqn:E2;
    cbn [bind run fst]; [right; split; [reflexivity | eexists; reflexivity]|].
  destruct (respond (video_close clip) w2) as [[e|[]] w3] eqn:E3;
    cbn [bind run fst]; [right; split; [reflexivity | eexists; reflexivity]|].
  left. split; [reflexivity|]. exists clip, w1, w2, w3. now rewrite E2, E3.
Qed.

Lemma extract_audio_trace (video_path audio_path : str) (w : env) :
  files_written (snd (run respond (extract_audio video_path audio_path) w)) = []
  /\ existsb cleanup_event
       (snd (run respond (extract_audio video_path audio_path) w)) = false
  /\ summarized_chunks
       (snd (run respond (extract_audio video_path audio_path) w)) = [].
Proof.
  unfold extract_audio. rewrite run_print_then, run_try_except.
  unfold extract_audio_body, perform. cbn [bind run].
  destruct (respond (VideoFileClip video_path) w) as [[e|clip] w1];
    cbn [bind run]; [repeat split|].
  destruct (respond (write_audiofile clip audio_path) w1) as [[e|[]] w2];
    cbn [bind run]; [repeat split|].
  destruct (respond (video_close clip) w2) as [[e|[]] w3];
    cbn [bind run]; repeat split.
Qed.

Lemma transcribe_trace (audio_path language : str) (w : env) :
  files_written (snd (run respond (transcribe audio_path language) w)) = []
  /\ existsb cleanup_event
       (snd (run respond (transcribe audio_path language) w)) = false
  /\ summarized_chunks
       (snd (run respond (transcribe audio_path language) w)) = [].
Proof.
  unfold transcribe, perform, print. cbn [bind run].
  destruct (respond (whisper_transcribe audio_path language 5) w)
    as [[e|answer] w1]; cbn [bind run]; [repeat split|].
  destruct answer as [segments info].
  destruct (transcribe_loop segments [] []) as [transcript timestamps].
  cbn [bind run]. repeat split.
Qed.

(** In every run of the loop of [summarize], returned or not, the model has
    been called on a first part of the long chunks, and nothing else
    happened. *)
Lemma summarize_loop_trace (max_length : Z) (chunks : list str) :
  forall i total summaries w,
    files_written
      (snd (run respond
              (summarize_loop i total chunks summaries max_length) w)) = []
    /\ existsb cleanup_event
         (snd (run respond
                 (summarize_loop i total chunks summaries max_length) w))
       = false
    /\ exists rest,
         filter long_enough chunks
         = summarized_chunks
             (snd (run respond
                     (summarize_loop i total chunks summaries max_length) w))
           ++ rest.
Proof.
  induction chunks as [|chunk rest IH]; intros i total summaries w.
  - repeat split. now exists [].
  - cbn [summarize_loop]. rewrite run_print_then. cbn [filter].
    change (long_enough chunk) with (50 <? length (split chunk)).
    destruct (50 <? length (split chunk)).
    + unfold perform. cbn [bind run].
      destruct (respond (summarizer chunk max_length 25 false true) w)
        as [[e|summary] w1]; cbn [bind run snd].
      * repeat split. now exists (filter long_enough rest).
      * destruct (IH (S i) total (summaries ++ [summary]) w1)
          as (F & C & more & E).
        destruct (run respond
                    (summarize_loop (S i) total rest (summaries ++ [summary])
                       max_length) w1) as [[o w2] tr2].
        cbn [snd files_written existsb cleanup_event summarized_chunks orb]
          in *.
        repeat split; try assumption. exists more. now rewrite E.
    + destruct (IH (S i) total summaries w) as (F & C & more & E).
      destruct (run respond
                  (summarize_loop (S i) total rest summaries max_length) w)
        as [[o w2] tr2].
      cbn [snd files_written existsb cleanup_event summarized_chunks orb] in *.
      repeat split; try assumption. now exists more.
Qed.

(** X7: whether [summarize] returns or raises, it writes no file, and the
    chunks it has handed to the model are, in order, a first part of the
    chunks of more than 50 words. *)
Theorem summarize_calls_in_order (text : str) (max_length : Z) (w : env) :
  files_written (snd (run respond (summarize text max_length) w)) = []
  /\ exists rest,
       filter (fun chunk => 50 <? length (split chunk)) (make_chunks text)
       = summarized_chunks (snd (run respond (summarize text max_length) w))
         ++ rest.
Proof.
  rewrite summarize_run.
  destruct (summarize_loop_trace max_length (make_chunks text) 0
              (length (make_chunks text)) [] w) as (F & _ & rest & E).
  destruct (run respond
              (summarize_loop 0 (length (make_chunks text)) (make_chunks text)
                 [] max_length) w) as [[[summaries|e] w1] tr];
    cbn [snd files_written summarized_chunks] in *.
  - rewrite files_written_app, summarized_chunks_app, F. split; [reflexivity|].
    exists rest. cbn [summarized_chunks]. now rewrite app_nil_r.
  - split; [exact F|]. now exists rest.
Qed.

Lemma summarize_trace (text : str) (max_length : Z) (w : env) :
  files_written (snd (run respond (summarize text max_length) w)) = []
  /\ existsb cleanup_event (snd (run respond (summarize text max_length) w))
     = false.
Proof.
  rewrite summarize_run.
  destruct (summarize_loop_trace max_length (make_chunks text) 0
              (length (make_chunks text)) [] w) as (F & C & _).
  destruct (run respond
              (summarize_loop 0 (length (make_chunks text)) (make_chunks text)
                 [] max_length) w) as [[[summaries|e] w1] tr];
    cbn [snd files_written existsb cleanup_event orb] in *.
  - rewrite files_written_app, existsb_app, F, C. split; reflexivity.
  - split; assumption.
Qed.

Lemma summarize_returned (text : str) (max_length : Z) (w w1 : env)
    (out : str) (tr : list event) :
  run respond (summarize text max_length) w = (Returns out, w1, tr) ->
  summarized_chunks tr = filter long_enough (make_chunks text)
  /\ exists summaries,
       out = format_bullet_points summaries
       /\ length summaries = length (filter long_enough (make_chunks text)).
Proof.
  rewrite summarize_run.
  destruct (run respond
              (summarize_loop 0 (length (make_chunks text)) (make_chunks text)
                 [] max_length) w) as [[[summaries|e] w2] tr2] eqn:R;
    [|discriminate].
  intros H. inversion H; subst.
  apply summarize_loop_returns in R as (R1 & _ & fresh & R3 & R4).
  cbn [summarized_chunks]. rewrite summarized_chunks_app, R1.
  split; [apply app_nil_r|]. exists fresh. split; [now rewrite R3 | exact R4].
Qed.

Lemma save_notes_trace (t s output_file : str) (ts : list timestamp)
    (w : env) :
  existsb cleanup_event
    (snd (run respond (save_notes t s ts output_file) w)) = false
  /\ summarized_chunks
       (snd (run respond (save_notes t s ts output_file) w)) = []
  /\ match fst (fst (run respond (save_notes t s ts output_file) w)) with
     | Returns _ =>
         files_written (snd (run respond (save_notes t s ts output_file) w))
         = [(output_file, concat (notes_writes s ts))]
     | Raises _ =>
         files_written (snd (run respond (save_notes t s ts output_file) w))
         = []
     end.
Proof.
  unfold save_notes, perform, print. cbn [bind run].
  destruct (respond (open_write output_file (concat (notes_writes s ts))) w)
    as [[e|[]] w1]; cbn [bind run]; repeat split.
Qed.

Lemma cleanup_trace {A : Type} (audio_path : str) (a : A) (w : env) :
  files_written (snd (run respond (cleanup_then audio_path a) w)) = []
  /\ summarized_chunks (snd (run respond (cleanup_then audio_path a) w)) = []
  /\ existsb cleanup_event (snd (run respond (cleanup_then audio_path a) w))
     = true
  /\ (fst (fst (run respond (cleanup_then audio_path a) w)) = Returns a
      \/ exists e,
           fst (fst (run respond (cleanup_then audio_path a) w)) = Raises e).
Proof.
  unfold cleanup_then, perform. cbn [bind run].
  destruct (respond (os_path_exists audio_path) w) as [[e|present] w1];
    cbn [bind run].
  - repeat split. right. now exists e.
  - destruct present; cbn [bind run].
    + destruct (respond (os_remove audio_path) w1) as [[e|[]] w2];
        cbn [bind run]; repeat split; [right; now exists e | now left].
    + repeat split. now left.
Qed.

Lemma extract_audio_cases (video_path audio_path : str) (w : env) :
  fst (fst (run respond (extract_audio video_path audio_path) w))
  = Returns (Some audio_path)
  \/ (fst (fst (run respond (extract_audio video_path audio_path) w))
      = Returns None
      /\ exists e,
           fst (fst (run respond (extract_audio_body video_path audio_path) w))
           = Raises e).
Proof.
  unfold extract_audio. rewrite run_print_then, run_try_except.
  destruct (run respond (extract_audio_body video_path audio_path) w)
    as [[[r|e] w1] tr1] eqn:R; cbn [run fst].
  - left. revert R. unfold extract_audio_body, perform. cbn [bind run].
    destruct (respond (VideoFileClip video_path) w) as [[e|clip] w2];
      cbn [bind run]; [discriminate|].
    destruct (respond (write_audiofile clip audio_path) w2) as [[e|[]] w3];
      cbn [bind run]; [discriminate|].
    destruct (respond (video_close clip) w3) as [[e|[]] w4];
      cbn [bind run]; [discriminate|].
    intros R. now inversion R.
  - right. split; [reflexivity | now exists e].
Qed.

End StageFacts.

Section PipelineTheorems.

Variable env : Type.
Variable respond : forall c : call, env -> (exn + resp c) * env.

Lemma default_audio_path_truthy : falsy (Some default_audio_path) = false.
Proof. reflexivity. Qed.

(** The three ways a run of [process_video] can go: stopped by a failed
    extraction; stopped by an exception before the notes were written; or the
    notes written, and the clean-up begun. *)
Lemma process_video_cases (video_path language output_file : str) (w : env) :
  (exists e,
      fst (fst (run respond (process_video video_path language output_file) w))
      = Returns None
      /\ fst (fst (run respond
                     (extract_audio_body video_path default_audio_path) w))
         = Raises e
      /\ files_written
           (snd (run respond (process_video video_path language output_file) w))
         = []
      /\ existsb cleanup_event
           (snd (run respond (process_video video_path language output_file) w))
         = false)
  \/ (exists e,
         fst (fst (run respond
                     (process_video video_path language output_file) w))
         = Raises e
         /\ files_written
              (snd (run respond
                      (process_video video_path language output_file) w))
            = []
         /\ existsb cleanup_event
              (snd (run respond
                      (process_video video_path language output_file) w))
            = false)
  \/ (exists t s ts summaries,
         (fst (fst (run respond
                      (process_video video_path language output_file) w))
          = Returns (Some (MkNotes t s ts))
          \/ exists e,
               fst (fst (run respond
                           (process_video video_path language output_file) w))
               = Raises e)
         /\ files_written
              (snd (run respond
                      (process_video video_path language output_file) w))
            = [(output_file, concat (notes_writes s ts))]
         /\ existsb cleanup_event
              (snd (run respond
                      (process_video video_path language output_file) w))
            = true
         /\ summarized_chunks
              (snd (run respond
                      (process_video video_path language output_file) w))
            = filter long_enough (make_chunks t)
         /\ s = format_bullet_points summaries
         /\ length summaries = length (filter long_enough (make_chunks t))).
Proof.
  rewrite process_video_run.
  generalize (extract_audio_cases env respond video_path default_audio_path w).
  generalize (extract_audio_trace env respond video_path default_audio_path w).
  destruct (run respond (extract_audio video_path default_audio_path) w)
    as [[o1 w1] tr1]. cbn [fst snd]. intros (F1 & C1 & S1) Hcases.
  destruct Hcases as [-> | [-> (e & He)]].
  2:{ left. exists e. cbn [falsy fst snd]. split; [reflexivity|].
      split; [exact He|]. cbn [banner app files_written existsb cleanup_event orb].
      split; assumption. }
  rewrite default_audio_path_truthy. cbn [path_of].
  generalize (transcribe_trace env respond default_audio_path language w1).
  destruct (run respond (transcribe default_audio_path language) w1)
    as [[[[t ts]|e] w2] tr2]; cbn [fst snd]; intros (F2 & C2 & S2).
  2:{ right. left. exists e. split; [reflexivity|].
      cbn [banner app files_written existsb cleanup_event orb].
      rewrite files_written_app, existsb_app, F1, F2, C1, C2.
      split; reflexivity. }
  generalize (summarize_trace env respond t 130 w2).
  destruct (run respond (summarize t 130) w2) as [[[s|e] w3] tr3] eqn:R3;
    cbn [fst snd]; intros (F3 & C3).
  2:{ right. left. exists e. split; [reflexivity|].
      cbn [banner app files_written existsb cleanup_event orb].
      rewrite !files_written_app, !existsb_app, F1, F2, F3, C1, C2, C3.
      split; reflexivity. }
  apply summarize_returned in R3 as (S3 & summaries & Hs & Hlen).
  generalize (save_notes_trace env respond t s output_file ts w3).
  destruct (run respond (save_notes t s ts output_file) w3)
    as [[[[]|e] w4] tr4]; cbn [fst snd]; intros (C4 & S4 & F4).
  2:{ right. left. exists e. split; [reflexivity|].
      cbn [banner app files_written existsb cleanup_event orb].
      rewrite !files_written_app, !existsb_app, F1, F2, F3, F4, C1, C2, C3, C4.
      split; reflexivity. }
  generalize (cleanup_trace env respond default_audio_path
                (Some (MkNotes t s ts)) w4).
  destruct (run respond
              (cleanup_then default_audio_path (Some (MkNotes t s ts))) w4)
    as [[o5 w5] tr5]; cbn [fst snd]; intros (F5 & S5 & C5 & Ho).
  right. right. exists t, s, ts, summaries.
  cbn [banner app files_written existsb cleanup_event orb summarized_chunks].
  rewrite !files_written_app, !existsb_app, !summarized_chunks_app.
  rewrite F1, F2, F3, F4, F5, C1, C2, C3, C4, C5, S1, S2, S3, S4, S5.
  rewrite !app_nil_r. cbn [app orb].
  split; [exact Ho|]. repeat split; assumption.
Qed.

(** X8: [process_video] returns [None] only when the audio extraction
    raised: a failure of a later stage never shows as [None]. *)
Theorem none_means_extraction_failed (video_path language output_file : str)
    (w : env) :
  fst (fst (run respond (process_video video_path language output_file) w))
  = Returns None ->
  exists e,
    fst (fst (run respond
                (extract_audio_body video_path default_audio_path) w))
    = Raises e.
Proof.
  intros H.
  destruct (process_video_cases video_path language output_file w)
    as [(e & _ & He & _) | [(e & E & _) | (t & s & ts & sm & [E|(e & E)] & _)]].
  - now exists e.
  - rewrite E in H. discriminate.
  - rewrite E in H. discriminate.
  - rewrite E in H. discriminate.
Qed.

(** X10: in every run of [process_video], whatever fails, at most one file
    is written, and it is the output file; and the temporary audio file is
    looked for or removed only once the notes are written: a run that stops
    earlier leaves it in place. *)
Theorem notes_written_before_cleanup (video_path language output_file : str)
    (w : env) :
  (files_written
     (snd (run respond (process_video video_path language output_file) w))
   = []
   /\ existsb cleanup_event
        (snd (run respond (process_video video_path language output_file) w))
      = false)
  \/ exists content,
       files_written
         (snd (run respond (process_video video_path language output_file) w))
       = [(output_file, content)].
Proof.
  destruct (process_video_cases video_path language output_file w)
    as [(e & _ & _ & F & C) | [(e & _ & F & C) | (t & s & ts & sm & _ & F & _)]].
  - left. now split.
  - left. now split.
  - right. now exists (concat (notes_writes s ts)).
Qed.

(** X11: once the audio is extracted, an exception of the speech engine or
    of the summarization model is not caught: [process_video] raises it,
    having written no file and left the temporary audio file alone. *)
Theorem engine_failure_propagates (video_path language output_file : str)
    (w w1 w' : env) (tr1 : list event) (e : exn) :
  run respond (extract_audio video_path default_audio_path) w
  = (Returns (Some default_audio_path), w1, tr1) ->
  (fst (run respond (transcribe default_audio_path language) w1)
   = (Raises e, w')
   \/ exists t ts w2 tr2,
        run respond (transcribe default_audio_path language) w1
        = (Returns (t, ts), w2, tr2)
        /\ fst (run respond (summarize t 130) w2) = (Raises e, w')) ->
  fst (run respond (process_video video_path language output_file) w)
  = (Raises e, w')
  /\ files_written
       (snd (run respond (process_video video_path language output_file) w))
     = []
  /\ existsb cleanup_event
       (snd (run respond (process_video video_path language output_file) w))
     = false.
Proof.
  intros H1 H2.
  rewrite process_video_run, H1, default_audio_path_truthy. cbn [path_of].
  pose proof (extract_audio_trace env respond video_path default_audio_path w)
    as (F1 & C1 & _). rewrite H1 in F1, C1. cbn [snd] in F1, C1.
  destruct H2 as [H2 | (t & ts & w2 & tr2 & H2 & H3)].
  - generalize (transcribe_trace env respond default_audio_path language w1).
    destruct (run respond (transcribe default_audio_path language) w1)
      as [[o2 w2] tr2]. cbn [fst snd] in *. inversion H2; subst.
    intros (F2 & C2 & _).
    cbn [fst snd banner app files_written existsb cleanup_event orb].
    rewrite files_written_app, existsb_app, F1, F2, C1, C2.
    repeat split.
  - pose proof (transcribe_trace env respond default_audio_path language w1)
      as (F2 & C2 & _). rewrite H2 in F2, C2 |- *. cbn [snd] in F2, C2.
    generalize (summarize_trace env respond t 130 w2).
    destruct (run respond (summarize t 130) w2) as [[o3 w3] tr3].
    cbn [fst snd] in *. inversion H3; subst.
    intros (F3 & C3).
    cbn [fst snd banner app files_written existsb cleanup_event orb].
    rewrite !files_written_app, !existsb_app, F1, F2, F3, C1, C2, C3.
    repeat split.
Qed.

End PipelineTheorems.

(** No codec: [None], and the extraction is what raised. *)
Lemma none_means_extraction_failed_no_codec :
  fst (fst (run Studio.no_codec
              (process_video Studio.lecture Studio.english Studio.notes_file)
              tt))
  = Returns None
  /\ exists e,
       fst (fst (run Studio.no_codec
                   (extract_audio_body Studio.lecture default_audio_path) tt))
       = Raises e.
Proof.
  assert (H : fst (fst (run Studio.no_codec
                          (process_video Studio.lecture Studio.english
                             Studio.notes_file) tt))
              = Returns None) by reflexivity.
  split; [exact H|].
  exact (none_means_extraction_failed unit Studio.no_codec Studio.lecture
           Studio.english Studio.notes_file tt H).
Defined.

(** The speech engine fails: no notes, and the audio file stays. *)
Lemma engine_failure_propagates_deaf :
  let extraction :=
    run Stage.deaf (extract_audio Studio.lecture default_audio_path) tt in
  extraction = (Returns (Some default_audio_path), tt, snd extraction)
  /\ fst (run Stage.deaf (transcribe default_audio_path Studio.english) tt)
     = (Raises (Exn (lit "audio could not be decoded")), tt)
  /\ fst (run Stage.deaf
            (process_video Studio.lecture Studio.english Studio.notes_file) tt)
     = (Raises (Exn (lit "audio could not be decoded")), tt)
  /\ files_written
       (snd (run Stage.deaf
               (process_video Studio.lecture Studio.english Studio.notes_file)
               tt))
     = [].
Proof.
  intros extraction.
  assert (H1 : extraction
               = (Returns (Some default_audio_path), tt, snd extraction))
    by reflexivity.
  assert (H2 : fst (run Stage.deaf
                      (transcribe default_audio_path Studio.english) tt)
               = (Raises (Exn (lit "audio could not be decoded")), tt))
    by reflexivity.
  split; [exact H1|]. split; [exact H2|].
  pose proof (engine_failure_propagates unit Stage.deaf Studio.lecture
                Studio.english Studio.notes_file tt tt tt (snd extraction)
                (Exn (lit "audio could not be decoded")) H1 (or_introl H2))
    as (R & F & _).
  split; [exact R | exact F].
Defined.

(** ** How many chunks *)

Section ChunkCount.

Lemma weight_flush_word (cur : str) : weight (flush_word cur) <= length cur + 1.
Proof. destruct cur; simpl; lia. Qed.

Lemma weight_split_from (s : str) :
  forall cur, weight (split_from cur s) <= length cur + length s + 1.
Proof.
  induction s as [|c s IH]; intros cur; cbn [split_from].
  - pose proof (weight_flush_word cur). simpl. lia.
  - destruct (isspace c).
    + rewrite weight_app. pose proof (weight_flush_word cur).
      specialize (IH []). simpl in *. lia.
    + specialize (IH (cur ++ [c])). rewrite length_app in IH. simpl in *. lia.
Qed.

Lemma groups_weight (words : list str) :
  forall cur,
    max_chunk_length * length (fst (groups words cur))
    + weight (snd (groups words cur))
    <= weight cur + weight words.
Proof.
  induction words as [|w words IH]; intros cur.
  - simpl. lia.
  - cbn [groups]. destruct (max_chunk_length <=? weight (cur ++ [w])) eqn:E.
    + apply Nat.leb_le in E. specialize (IH []).
      rewrite weight_app in E. cbn [fst snd length weight] in *.
      unfold max_chunk_length in *. lia.
    + specialize (IH (cur ++ [w])). rewrite weight_app in IH.
      cbn [weight] in *. lia.
Qed.

Lemma all_groups_length (words : list str) :
  length (all_groups words) <= length (fst (groups words [])) + 1.
Proof.
  unfold all_groups. rewrite length_app.
  destruct (snd (groups words [])); simpl; lia.
Qed.

Lemma length_concat_nonempty {A : Type} (l : list (list A)) :
  Forall (fun g => g <> []) l -> length l <= length (concat l).
Proof.
  induction 1 as [|g l Hg Hl IH]; [apply Nat.le_refl|].
  simpl. rewrite length_app. destruct g; [contradiction|]. simpl. lia.
Qed.

(** X13: a transcript gives no more chunks than it has words, and at most
    one more than its length plus one, divided by 1024: all chunks but the
    last account for 1024 code points of the transcript each. *)
Theorem chunk_count_bounded (text : str) :
  length (make_chunks text) <= length (split text)
  /\ max_chunk_length * (length (make_chunks text) - 1) <= length text + 1.
Proof.
  rewrite make_chunks_groups, length_map. split.
  - rewrite <- (all_groups_concat (split text)) at 2.
    apply length_concat_nonempty.
    eapply Forall_impl; [|apply all_groups_bounded]. now intros g [H _].
  - pose proof (all_groups_length (split text)).
    pose proof (groups_weight (split text) []).
    pose proof (weight_split_from text []).
    fold (split text) in *. unfold max_chunk_length in *. simpl in *. lia.
Qed.

End ChunkCount.

(** ** What [save_notes] writes *)

Section NotesFile.

Variable env : Type.
Variable respond : forall c : call, env -> (exn + resp c) * env.

Lemma line_breaks_app (a b : str) :
  line_breaks (a ++ b) = line_breaks a + line_breaks b.
Proof. unfold line_breaks. now rewrite filter_app, length_app. Qed.

Lemma digits_one_line (d : Decimal.uint) :
  line_breaks (lit (NilEmpty.string_of_uint d)) = 0.
Proof. induction d; simpl; try assumption; reflexivity. Qed.

Lemma nilzero_one_line (d : Decimal.uint) :
  line_breaks (lit (NilZero.string_of_uint d)) = 0.
Proof.
  unfold NilZero.string_of_uint.
  destruct d; [reflexivity | apply digits_one_line ..].
Qed.

Lemma str_of_Z_one_line (n : Z) : line_breaks (str_of_Z n) = 0.
Proof.
  unfold str_of_Z, NilZero.string_of_int.
  destruct n as [|p|p]; [reflexivity| |]; cbn [Z.to_int].
  - apply nilzero_one_line.
  - change (lit (String "-" (NilZero.string_of_uint (Pos.to_uint p))))
      with ([45%N] ++ lit (NilZero.string_of_uint (Pos.to_uint p))).
    now rewrite line_breaks_app, nilzero_one_line.
Qed.

Lemma format_02d_one_line (n : Z) : line_breaks (format_02d n) = 0.
Proof.
  unfold format_02d. pose proof (str_of_Z_one_line (Z.abs n)) as H.
  destruct (n <? 0)%Z.
  - change (45%N :: str_of_Z (Z.abs n)) with ([45%N] ++ str_of_Z (Z.abs n)).
    now rewrite line_breaks_app, H.
  - destruct (str_of_Z (Z.abs n)) as [|d [|d2 rest]]; assumption.
Qed.

(** A timestamp entry spelled out: minutes and seconds with two digits
    between brackets, a space, the text, a line break. *)
Lemma timestamp_line_spelled (ts : timestamp) :
  timestamp_line ts
  = lit "[" ++ format_02d (minutes_of (ts_start ts)) ++ lit ":"
      ++ format_02d (seconds_of (ts_start ts)) ++ lit "] " ++ ts_text ts
      ++ [10%N].
Proof. reflexivity. Qed.

Lemma timestamp_line_breaks (ts : timestamp) :
  line_breaks (ts_text ts) = 0 -> line_breaks (timestamp_line ts) = 1.
Proof.
  intros H. rewrite timestamp_line_spelled, !line_breaks_app.
  rewrite !format_02d_one_line, H. reflexivity.
Qed.

Lemma entries_line_breaks (l : list timestamp) :
  Forall (fun ts => line_breaks (ts_text ts) = 0) l ->
  line_breaks (concat (map timestamp_line l)) = length l.
Proof.
  induction 1 as [|ts l Hts Hl IH]; [reflexivity|].
  cbn [map concat length]. rewrite line_breaks_app, IH.
  now rewrite timestamp_line_breaks.
Qed.

(** The run of [save_notes]: the message, the file opened and written, and
    the closing message unless the file system raised. *)
Lemma save_notes_run (transcript summary output_file : str)
    (timestamps : list timestamp) (w : env) :
  snd (run respond (save_notes transcript summary timestamps output_file) w)
  = EvPrint (floppy_disk :: lit " Saving notes to " ++ output_file
               ++ lit "...")
    :: EvCall (open_write output_file (concat (notes_writes summary timestamps)))
         (fst (respond
                 (open_write output_file
                    (concat (notes_writes summary timestamps))) w))
    :: match fst (respond
                    (open_write output_file
                       (concat (notes_writes summary timestamps))) w) with
       | inr _ => [EvPrint (check_mark :: lit " Notes saved successfully!")]
       | inl _ => []
       end.
Proof.
  unfold save_notes, perform, print. cbn [bind run].
  destruct (respond
              (open_write output_file
                 (concat (notes_writes summary timestamps))) w)
    as [[e|[]] w1]; reflexivity.
Qed.

Lemma notes_content (summary : str) (timestamps : list timestamp) :
  concat (notes_writes summary timestamps)
  = concat (firstn 12 (notes_writes summary []))
    ++ concat (map timestamp_line (kept_from 0 timestamps)).
Proof.
  unfold notes_writes. rewrite concat_app, timestamp_loop_kept.
  reflexivity.
Qed.

Lemma kept_of_45 (timestamps : list timestamp) :
  length timestamps = 45 ->
  map Some (kept_from 0 timestamps)
  = map (nth_error timestamps) [0; 5; 10; 15; 20; 25; 30; 35].
Proof.
  intros H.
  do 45 (destruct timestamps as [|? timestamps]; [discriminate|]).
  destruct timestamps; [|discriminate]. reflexivity.
Qed.

Lemma kept_count (timestamps : list timestamp) :
  length (kept_from 0 timestamps) = (Nat.min (length timestamps) 40 + 4) / 5.
Proof.
  pose proof (timestamp_loop_count timestamps 0) as H.
  rewrite timestamp_loop_kept, length_map in H.
  change ((Nat.min 0 40 + 4) / 5) with 0 in H.
  rewrite Nat.add_0_r in H. exact H.
Qed.

(** C5, as the code has it: [save_notes] opens the output file and writes,
    after the twelve header strings, one entry per timestamp whose index [i]
    has [i % 5 == 0] and [i < 40], in order: the minutes and seconds of its
    start time with two digits between brackets, a space, its text and a
    line break ([[02:05]] for 125.5 seconds). With 45 timestamps these are
    the 8 entries at 0, 5, ..., 35. The entries are as many lines when no
    text holds a line break. *)
Theorem timestamps_decimated (transcript summary output_file : str)
    (timestamps : list timestamp) (w : env) :
  let entries :=
    map (fun ts =>
           lit "[" ++ format_02d (minutes_of (ts_start ts)) ++ lit ":"
             ++ format_02d (seconds_of (ts_start ts)) ++ lit "] "
             ++ ts_text ts ++ [10%N])
      (kept_from 0 timestamps) in
  let content :=
    concat (firstn 12 (notes_writes summary [])) ++ concat entries in
  (exists r,
      snd (run respond
             (save_notes transcript summary timestamps output_file) w)
      = EvPrint (floppy_disk :: lit " Saving notes to " ++ output_file
                   ++ lit "...")
        :: EvCall (open_write output_file content) r
        :: match r with
           | inr _ =>
               [EvPrint (check_mark :: lit " Notes saved successfully!")]
           | inl _ => []
           end)
  /\ lit "[" ++ format_02d (minutes_of (dyadic 251 (-1))) ++ lit ":"
       ++ format_02d (seconds_of (dyadic 251 (-1))) ++ lit "] "
     = lit "[02:05] "
  /\ (length timestamps = 45 ->
      length entries = 8
      /\ map Some (kept_from 0 timestamps)
         = map (nth_error timestamps) [0; 5; 10; 15; 20; 25; 30; 35])
  /\ (Forall (fun ts => line_breaks (ts_text ts) = 0)
        (kept_from 0 timestamps) ->
      line_breaks (concat entries) = length (kept_from 0 timestamps)).
Proof.
  intros entries content.
  assert (E : content = concat (notes_writes summary timestamps))
    by (symmetry; apply notes_content).
  split; [|split; [|split]].
  - rewrite E. eexists. apply save_notes_run.
  - vm_compute. reflexivity.
  - intros H. unfold entries. rewrite length_map. split.
    + rewrite kept_count, H. reflexivity.
    + now apply kept_of_45.
  - apply entries_line_breaks.
Qed.

(** X2: the timestamp entries [save_notes] writes after the header (two-
    digit minutes and seconds between brackets, a space, the text, a line
    break) number [min n 40] over five, rounded up, for [n] timestamps:
    never more than eight, and eight from forty timestamps on; they are as
    many lines when no text holds a line break. *)
Theorem timestamp_lines_capped (transcript summary output_file : str)
    (timestamps : list timestamp) (w : env) :
  let entries :=
    map (fun ts =>
           lit "[" ++ format_02d (minutes_of (ts_start ts)) ++ lit ":"
             ++ format_02d (seconds_of (ts_start ts)) ++ lit "] "
             ++ ts_text ts ++ [10%N])
      (kept_from 0 timestamps) in
  (exists r,
      In (EvCall
            (open_write output_file
               (concat (firstn 12 (notes_writes summary []))
                ++ concat entries)) r)
        (snd (run respond
                (save_notes transcript summary timestamps output_file) w)))
  /\ length entries = (Nat.min (length timestamps) 40 + 4) / 5
  /\ length entries <= 8
  /\ (40 <= length timestamps -> length entries = 8)
  /\ (Forall (fun ts => line_breaks (ts_text ts) = 0)
        (kept_from 0 timestamps) ->
      line_breaks (concat entries)
      = (Nat.min (length timestamps) 40 + 4) / 5).
Proof.
  intros entries.
  assert (L : length entries = (Nat.min (length timestamps) 40 + 4) / 5)
    by (unfold entries; rewrite length_map; apply kept_count).
  pose proof (Nat.div_mod_eq (Nat.min (length timestamps) 40 + 4) 5).
  pose proof (Nat.mod_upper_bound (Nat.min (length timestamps) 40 + 4) 5).
  split; [|split; [exact L | split; [lia | split]]].
  - eexists. rewrite save_notes_run, notes_content. right. left. reflexivity.
  - intros Hn. rewrite Nat.min_r in * by lia. lia.
  - intros Hone. rewrite <- kept_count. now apply entries_line_breaks.
Qed.

End NotesFile.

(** Forty-five segments, one every two seconds: eight entries, eight
    lines. *)
Lemma timestamps_decimated_45 :
  let timestamps :=
    map (fun i => Timestamp (dyadic (2 * Z.of_nat i) 0)
                    (dyadic (2 * Z.of_nat i + 2) 0) (str_of_nat i))
      (seq 0 45) in
  length timestamps = 45
  /\ Forall (fun ts => line_breaks (ts_text ts) = 0) (kept_from 0 timestamps)
  /\ files_written
       (snd (run Studio.calm
               (save_notes [] [] timestamps Studio.notes_file) tt))
     = [(Studio.notes_file,
         concat (firstn 12 (notes_writes [] []))
         ++ lit "[00:00] 0" ++ nl ++ lit "[00:10] 5" ++ nl
         ++ lit "[00:20] 10" ++ nl ++ lit "[00:30] 15" ++ nl
         ++ lit "[00:40] 20" ++ nl ++ lit "[00:50] 25" ++ nl
         ++ lit "[01:00] 30" ++ nl ++ lit "[01:10] 35" ++ nl)]
  /\ line_breaks
       (lit "[00:00] 0" ++ nl ++ lit "[00:10] 5" ++ nl
        ++ lit "[00:20] 10" ++ nl ++ lit "[00:30] 15" ++ nl
        ++ lit "[00:40] 20" ++ nl ++ lit "[00:50] 25" ++ nl
        ++ lit "[01:00] 30" ++ nl ++ lit "[01:10] 35" ++ nl)
     = 8.
Proof.
  intros timestamps.
  assert (H : length timestamps = 45) by reflexivity.
  assert (H1 : Forall (fun ts => line_breaks (ts_text ts) = 0)
                 (kept_from 0 timestamps))
    by (vm_compute; repeat constructor).
  pose proof (timestamps_decimated unit Studio.calm [] [] Studio.notes_file
                timestamps tt) as (_ & _ & H45 & Hlines).
  specialize (H45 H). specialize (Hlines H1).
  split; [exact H|]. split; [exact H1|].
  split; vm_compute; reflexivity.
Defined.

(** Forty-five segments whose text holds a line break: eight entries, but
    sixteen lines. *)
Lemma timestamps_two_lines_each :
  let timestamps :=
    repeat (Timestamp (dyadic 0 0) (dyadic 1 0) (lit "a" ++ nl ++ lit "b"))
      45 in
  length timestamps = 45
  /\ files_written
       (snd (run Studio.calm
               (save_notes [] [] timestamps Studio.notes_file) tt))
     = [(Studio.notes_file,
         concat (firstn 12 (notes_writes [] []))
         ++ concat (repeat (lit "[00:00] a" ++ nl ++ lit "b" ++ nl) 8))]
  /\ line_breaks (concat (repeat (lit "[00:00] a" ++ nl ++ lit "b" ++ nl) 8))
     = 16.
Proof. vm_compute. repeat split. Qed.

(** A thousand segments still give eight entries. *)
Lemma timestamp_lines_capped_thousand :
  let timestamps :=
    repeat (Timestamp (dyadic 0 0) (dyadic 1 0) (lit " again")) 1000 in
  40 <= length timestamps
  /\ length (kept_from 0 timestamps) = 8.
Proof.
  intros timestamps.
  assert (H : 40 <= length timestamps)
    by (apply Nat.leb_le; vm_compute; reflexivity).
  split; [exact H|].
  pose proof (timestamp_lines_capped unit Studio.calm [] [] Studio.notes_file
                timestamps tt) as (_ & _ & _ & H40 & _).
  specialize (H40 H). rewrite length_map in H40. exact H40.
Defined.

(** ** The model's answers *)

Section ModelAnswers.

Variable env : Type.
Variable respond : forall c : call, env -> (exn + resp c) * env.

Lemma model_exchanges_app (tr1 tr2 : list event) :
  model_exchanges (tr1 ++ tr2) = model_exchanges tr1 ++ model_exchanges tr2.
Proof.
  induction tr1 as [|ev tr1 IH]; [reflexivity|].
  destruct ev as [line|c r]; simpl; [assumption|].
  destruct c; try assumption. simpl. now rewrite IH.
Qed.

Lemma summarized_chunks_exchanges (tr : list event) :
  summarized_chunks tr = map fst (model_exchanges tr).
Proof.
  induction tr as [|ev tr IH]; [reflexivity|].
  destruct ev as [line|c r]; simpl; [assumption|].
  destruct c; try assumption. simpl. now rewrite IH.
Qed.

Lemma no_chunk_no_exchange (tr : list event) :
  summarized_chunks tr = [] -> model_exchanges tr = [].
Proof.
  rewrite summarized_chunks_exchanges.
  destruct (model_exchanges tr); [reflexivity | discriminate].
Qed.

Lemma map_fst_combine {A B : Type} (l : list A) (l' : list B) :
  length l' = length l -> map fst (combine l l') = l.
Proof.
  revert l'. induction l as [|a l IH]; intros [|b l'] H;
    try reflexivity; try discriminate.
  simpl. f_equal. apply IH. now inversion H.
Qed.

(** The loop of [summarize]: what was asked of the model and what it
    answered, whether the loop returns or stops on an exception. *)
Lemma summarize_loop_exchanges (max_length : Z) (chunks : list str) :
  forall i total summaries w,
    match fst (fst (run respond
                      (summarize_loop i total chunks summaries max_length) w))
    with
    | Returns out =>
        exists answers,
          model_exchanges
            (snd (run respond
                    (summarize_loop i total chunks summaries max_length) w))
          = combine (filter long_enough chunks) (map inr answers)
          /\ length answers = length (filter long_enough chunks)
          /\ out = summaries ++ answers
    | Raises e =>
        exists asked answers chunk rest,
          filter long_enough chunks = asked ++ chunk :: rest
          /\ length answers = length asked
          /\ model_exchanges
               (snd (run respond
                       (summarize_loop i total chunks summaries max_length) w))
             = combine asked (map inr answers) ++ [(chunk, inl e)]
    end.
Proof.
  induction chunks as [|chunk more IH]; intros i total summaries w.
  - cbn [summarize_loop run fst snd]. exists []. repeat split.
    now rewrite app_nil_r.
  - cbn [summarize_loop]. rewrite run_print_then. cbn [filter].
    change (long_enough chunk) with (50 <? length (split chunk)).
    destruct (50 <? length (split chunk)).
    + unfold perform. cbn [bind run].
      destruct (respond (summarizer chunk max_length 25 false true) w)
        as [[e|summary] w1]; cbn [bind run fst snd model_exchanges].
      * exists [], [], chunk, (filter long_enough more). repeat split.
      * specialize (IH (S i) total (summaries ++ [summary]) w1).
        destruct (run respond
                    (summarize_loop (S i) total more (summaries ++ [summary])
                       max_length) w1) as [[[out|e] w2] tr2];
          cbn [fst snd model_exchanges] in *.
        -- destruct IH as (answers & E & L & O).
           exists (summary :: answers). cbn [map combine length].
           rewrite E, L, O, <- app_assoc. repeat split.
        -- destruct IH as (asked & answers & c & rest & F & L & E).
           exists (chunk :: asked), (summary :: answers), c, rest.
           cbn [map combine length app]. rewrite E, L, F. repeat split.
    + specialize (IH (S i) total summaries w).
      destruct (run respond
                  (summarize_loop (S i) total more summaries max_length) w)
        as [[[out|e] w2] tr2]; cbn [fst snd model_exchanges] in *; exact IH.
Qed.

(** C1, as the code has it: [summarize] never hands a chunk of 50 words or
    fewer to the model. It hands over the chunks of more than 50 words in
    order: all of them when no call raises, and then the result is the
    bullet list made of the model's answers, one per chunk, in order; up to
    the chunk on which the model raises otherwise, and then [summarize]
    raises that exception. *)
Theorem summarize_skips_short_chunks (text : str) (max_length : Z) (w : env) :
  let passed :=
    filter (fun chunk => 50 <? length (split chunk)) (make_chunks text) in
  (forall chunk,
      In chunk
        (summarized_chunks (snd (run respond (summarize text max_length) w)))
      -> In chunk (make_chunks text) /\ 50 < length (split chunk))
  /\ match fst (fst (run respond (summarize text max_length) w)) with
     | Returns out =>
         exists answers,
           model_exchanges (snd (run respond (summarize text max_length) w))
           = combine passed (map inr answers)
           /\ length answers = length passed
           /\ summarized_chunks
                (snd (run respond (summarize text max_length) w))
              = passed
           /\ out = format_bullet_points answers
     | Raises e =>
         exists asked answers chunk rest,
           passed = asked ++ chunk :: rest
           /\ length answers = length asked
           /\ model_exchanges
                (snd (run respond (summarize text max_length) w))
              = combine asked (map inr answers) ++ [(chunk, inl e)]
     end.
Proof.
  intros passed.
  assert (Hloop := summarize_loop_exchanges max_length (make_chunks text) 0
                     (length (make_chunks text)) [] w).
  assert (Hrun := summarize_run env respond text max_length w).
  destruct (run respond
              (summarize_loop 0 (length (make_chunks text)) (make_chunks text)
                 [] max_length) w) as [[[summaries|e] w1] tr];
    rewrite Hrun; cbn [fst snd] in *.
  - destruct Hloop as (answers & E & L & O). cbn [app] in O. subst summaries.
    assert (X : model_exchanges
                  (EvPrint (robot_face :: lit " Generating key points summary...")
                   :: tr ++ [EvPrint (check_mark :: lit " Key points extracted!")])
                = combine passed (map inr answers)).
    { cbn [model_exchanges]. rewrite model_exchanges_app, E. apply app_nil_r. }
    assert (S : summarized_chunks
                  (EvPrint (robot_face :: lit " Generating key points summary...")
                   :: tr ++ [EvPrint (check_mark :: lit " Key points extracted!")])
                = passed).
    { rewrite summarized_chunks_exchanges, X.
      apply map_fst_combine. now rewrite length_map. }
    split.
    + intros chunk Hin. rewrite S in Hin. unfold passed in Hin.
      apply filter_In in Hin as [H1 H2]. now apply Nat.ltb_lt in H2.
    + exists answers. repeat split; assumption.
  - destruct Hloop as (asked & answers & chunk & rest & F & L & E).
    assert (X : model_exchanges
                  (EvPrint (robot_face :: lit " Generating key points summary...")
                   :: tr)
                = combine asked (map inr answers) ++ [(chunk, inl e)])
      by exact E.
    split.
    + intros c Hin. rewrite summarized_chunks_exchanges, X in Hin.
      rewrite map_app, map_fst_combine in Hin by now rewrite length_map.
      assert (Hp : In c passed).
      { unfold passed. fold long_enough. rewrite F.
        apply in_app_iff in Hin as [Hin|[<-|[]]]; apply in_or_app;
          [now left | right; now left]. }
      unfold passed in Hp. apply filter_In in Hp as [H1 H2].
      now apply Nat.ltb_lt in H2.
    + exists asked, answers, chunk, rest. repeat split; assumption.
Qed.

Lemma summarize_returned_exchanges (text : str) (max_length : Z) (w w1 : env)
    (out : str) (tr : list event) :
  run respond (summarize text max_length) w = (Returns out, w1, tr) ->
  exists answers,
    model_exchanges tr
    = combine (filter long_enough (make_chunks text)) (map inr answers)
    /\ length answers = length (filter long_enough (make_chunks text))
    /\ out = format_bullet_points answers.
Proof.
  intros H.
  assert (Hloop := summarize_loop_exchanges max_length (make_chunks text) 0
                     (length (make_chunks text)) [] w).
  rewrite summarize_run in H.
  destruct (run respond
              (summarize_loop 0 (length (make_chunks text)) (make_chunks text)
                 [] max_length) w) as [[[summaries|e] w2] tr2];
    [|discriminate].
  cbn [fst snd] in Hloop. destruct Hloop as (answers & E & L & O).
  inversion H; subst. exists answers. cbn [model_exchanges app].
  rewrite model_exchanges_app, E. repeat split; [apply app_nil_r | exact L].
Qed.

(** X9: when [process_video] returns notes, it has opened exactly one file
    for writing, the output file, with the layout of [save_notes] filled
    with the returned summary and timestamps; the model was asked about
    exactly the chunks of more than 50 words of the returned transcript, in
    order, and the returned summary is the bullet list made of its answers;
    and the temporary audio file was looked for. *)
Theorem returned_notes_match_file (video_path language output_file : str)
    (w : env) (result : notes) :
  fst (fst (run respond (process_video video_path language output_file) w))
  = Returns (Some result) ->
  files_written
    (snd (run respond (process_video video_path language output_file) w))
  = [(output_file,
      concat (notes_writes (summary result) (timestamps result)))]
  /\ (exists answers,
         model_exchanges
           (snd (run respond
                   (process_video video_path language output_file) w))
         = combine
             (filter (fun chunk => 50 <? length (split chunk))
                (make_chunks (transcript result)))
             (map inr answers)
         /\ length answers
            = length
                (filter (fun chunk => 50 <? length (split chunk))
                   (make_chunks (transcript result)))
         /\ summary result = format_bullet_points answers)
  /\ existsb cleanup_event
       (snd (run respond (process_video video_path language output_file) w))
     = true.
Proof.
  intros H.
  destruct (process_video_cases env respond video_path language output_file w)
    as [(e & E & _) | [(e & E & _) | (t & s & ts & sm & Ho & F & C & _)]].
  { rewrite E in H. discriminate. }
  { rewrite E in H. discriminate. }
  destruct Ho as [E | (e & E)]; rewrite E in H; [|discriminate].
  inversion H; subst result. cbn [summary timestamps transcript].
  split; [exact F|]. split; [|exact C]. clear F C H.
  revert E. rewrite process_video_run.
  generalize (extract_audio_trace env respond video_path default_audio_path w).
  destruct (run respond (extract_audio video_path default_audio_path) w)
    as [[[ap|e1] w1] tr1]; [|discriminate].
  cbn [snd]. intros (_ & _ & S1).
  destruct (falsy ap); [discriminate|].
  generalize (transcribe_trace env respond (path_of ap) language w1).
  destruct (run respond (transcribe (path_of ap) language) w1)
    as [[[[t2 ts2]|e2] w2] tr2]; [|discriminate].
  cbn [snd]. intros (_ & _ & S2).
  destruct (run respond (summarize t2 130) w2) as [[[s3|e3] w3] tr3] eqn:R3;
    [|discriminate].
  apply summarize_returned_exchanges in R3 as (answers & X3 & L3 & O3).
  generalize (save_notes_trace env respond t2 s3 output_file ts2 w3).
  destruct (run respond (save_notes t2 s3 ts2 output_file) w3)
    as [[[[]|e4] w4] tr4]; [|discriminate].
  cbn [snd]. intros (_ & S4 & _).
  generalize (cleanup_trace env respond (path_of ap)
                (Some (MkNotes t2 s3 ts2)) w4).
  destruct (run respond
              (cleanup_then (path_of ap) (Some (MkNotes t2 s3 ts2))) w4)
    as [[o5 w5] tr5]. cbn [fst snd]. intros (_ & S5 & _ & Ho5) E.
  destruct Ho5 as [-> | (e5 & ->)]; [|discriminate].
  inversion E; subst. exists answers.
  cbn [banner app model_exchanges]. rewrite !model_exchanges_app.
  rewrite (no_chunk_no_exchange _ S1), (no_chunk_no_exchange _ S2),
    (no_chunk_no_exchange _ S4), (no_chunk_no_exchange _ S5), X3.
  cbn [app]. rewrite app_nil_r.
  split; [reflexivity | split; [exact L3 | reflexivity]].
Qed.

End ModelAnswers.

(** Sixty words: the one chunk goes to the model, and its answer makes the
    result. *)
Lemma summarize_skips_short_chunks_sixty :
  fst (fst (run Studio.calm (summarize Studio.sixty_words 130) tt))
  = Returns (format_bullet_points
               [lit "Sorting orders a list. It is a classic problem."])
  /\ model_exchanges
       (snd (run Studio.calm (summarize Studio.sixty_words 130) tt))
     = [(Studio.sixty_words,
         inr (lit "Sorting orders a list. It is a classic problem."))].
Proof.
  pose proof (summarize_skips_short_chunks unit Studio.calm
                Studio.sixty_words 130 tt) as [_ H].
  split; vm_compute; reflexivity.
Defined.

(** Sixty words spoken: one chunk summarized, one file written. *)
Lemma returned_notes_match_file_talkative :
  let run_it :=
    run Stage.talkative
      (process_video Studio.lecture Studio.english Studio.notes_file) tt in
  let result :=
    MkNotes Studio.sixty_words
      (format_bullet_points
         [lit "Sorting orders a list. It is a classic problem."])
      (map entry_of Stage.long_segments) in
  fst (fst run_it) = Returns (Some result)
  /\ files_written (snd run_it)
     = [(Studio.notes_file,
         concat (notes_writes (summary result) (timestamps result)))]
  /\ model_exchanges (snd run_it)
     = [(Studio.sixty_words,
         inr (lit "Sorting orders a list. It is a classic problem."))].
Proof.
  intros run_it result.
  assert (H : fst (fst run_it) = Returns (Some result))
    by (vm_compute; reflexivity).
  split; [exact H|].
  pose proof (returned_notes_match_file unit Stage.talkative Studio.lecture
                Studio.english Studio.notes_file tt result H) as (F & _ & _).
  split; [exact F | vm_compute; reflexivity].
Defined.

(** ** The lines of the bullet list *)

Section BulletLines.

Lemma line_breaks_middle (a q b : str) :
  line_breaks (a ++ q ++ b) = 0 -> line_breaks q = 0.
Proof. rewrite !line_breaks_app. lia. Qed.

(** Replacing the sentence boundary brings in no line break. *)
Lemma replace_line_breaks (n : nat) :
  forall s,
    length s <= n ->
    line_breaks (replace dot_space (lit ".|") s) = line_breaks s.
Proof.
  induction n as [|n IH]; intros s Hn.
  - destruct s; [reflexivity | simpl in Hn; lia].
  - destruct s as [|d s]; [reflexivity|].
    destruct (starts_with dot_space (d :: s)) eqn:E.
    + change dot_space with [46%N; 32%N] in E. cbn [starts_with] in E.
      apply andb_prop in E as [E1 E2]. apply N.eqb_eq in E1. subst d.
      destruct s as [|e s]; [discriminate|].
      rewrite andb_true_r in E2. apply N.eqb_eq in E2. subst e.
      rewrite replace_boundary.
      change (46%N :: pipe :: replace dot_space (lit ".|") s)
        with ([46%N; pipe] ++ replace dot_space (lit ".|") s).
      change (46%N :: 32%N :: s) with ([46%N; 32%N] ++ s).
      rewrite !line_breaks_app, IH by (simpl in Hn; lia). reflexivity.
    + rewrite replace_other by assumption.
      change (d :: replace dot_space (lit ".|") s)
        with ([d] ++ replace dot_space (lit ".|") s).
      change (d :: s) with ([d] ++ s).
      rewrite !line_breaks_app, IH by (simpl in Hn; lia). reflexivity.
Qed.

Lemma fragments_one_line (summary : str) :
  one_line summary ->
  Forall one_line (map strip (sentences_of summary)).
Proof.
  intros H. apply Forall_map. unfold sentences_of.
  eapply Forall_impl; [|apply split_on_pieces].
  intros q [(a & b & E) _]. cbn beta.
  destruct (strip_split q) as (ws1 & ws2 & _ & _ & Es).
  assert (Hq : line_breaks q = 0).
  { apply (line_breaks_middle a q b).
    change (lit ". ") with dot_space in E. rewrite <- E.
    now rewrite (replace_line_breaks (length summary)). }
  rewrite Es in Hq. now apply line_breaks_middle in Hq.
Qed.

Lemma bullet_points_one_line (summaries : list str) :
  Forall one_line summaries ->
  Forall one_line (bullet_points_of summaries).
Proof.
  intros H. unfold bullet_points_of. rewrite summary_loop_spec. cbn [app].
  apply Forall_map, Forall_forall. intros fragment Hin.
  apply filter_In in Hin as [Hin _].
  rewrite flat_map_concat_map, concat_map in Hin.
  apply in_concat in Hin as (l & Hl & Hf).
  rewrite map_map in Hl. apply in_map_iff in Hl as (summary & <- & Hs).
  pose proof (proj1 (Forall_forall _ _) H summary Hs) as H1.
  pose proof (proj1 (Forall_forall _ _) (fragments_one_line summary H1)
                fragment Hf) as H2.
  unfold one_line, bulleted in *.
  change (bullet :: lit " " ++ fragment) with ([bullet; 32%N] ++ fragment).
  now rewrite line_breaks_app, H2.
Qed.

Lemma split_on_one_line (s : str) : one_line s -> split_on 10%N s = [s].
Proof.
  unfold one_line, line_breaks.
  induction s as [|c s IH]; intros H; [reflexivity|].
  cbn [split_on filter] in *. destruct (c =? 10)%N; [discriminate|].
  now rewrite (IH H).
Qed.

Lemma split_on_line_break (a b : str) :
  one_line a -> split_on 10%N (a ++ 10%N :: b) = a :: split_on 10%N b.
Proof.
  unfold one_line, line_breaks.
  induction a as [|c a IH]; intros H; [reflexivity|].
  cbn [split_on filter app] in *. destruct (c =? 10)%N; [discriminate|].
  now rewrite (IH H).
Qed.

Lemma split_on_join (l : list str) :
  l <> [] -> Forall one_line l -> split_on 10%N (join nl l) = l.
Proof.
  intros Hne H. induction H as [|x l Hx Hl IH]; [contradiction|].
  destruct l as [|y l].
  - now apply split_on_one_line.
  - change (join nl (x :: y :: l)) with (x ++ 10%N :: join nl (y :: l)).
    rewrite split_on_line_break by assumption.
    f_equal. apply IH. discriminate.
Qed.

(** C7, as the code has it: the entries [format_bullet_points] builds, the
    bullet glyph, a space and a stripped fragment of more than 15 code
    points, have at least 16 code points each and are joined by line
    breaks. When no summary holds a line break these entries are the lines
    of the result, so that every line it emits has at least 16 code
    points. *)
Theorem bullet_lines_long (summaries : list str) :
  format_bullet_points summaries = join nl (bullet_points_of summaries)
  /\ bullet_points_of summaries
     = map (fun fragment => bullet :: lit " " ++ fragment)
         (filter (fun fragment => 15 <? length fragment)
            (map strip (flat_map sentences_of summaries)))
  /\ Forall (fun entry => 16 <= length entry) (bullet_points_of summaries)
  /\ (Forall (fun summary => line_breaks summary = 0) summaries ->
      (bullet_points_of summaries = []
       /\ format_bullet_points summaries = [])
      \/ (split_on 10%N (format_bullet_points summaries)
          = bullet_points_of summaries
          /\ Forall (fun line => 16 <= length line)
               (split_on 10%N (format_bullet_points summaries)))).
Proof.
  assert (E : bullet_points_of summaries
              = map bulleted
                  (filter meaningful
                     (map strip (flat_map sentences_of summaries))))
    by (unfold bullet_points_of; now rewrite summary_loop_spec).
  assert (L : Forall (fun entry => 16 <= length entry)
                (bullet_points_of summaries)).
  { rewrite E. apply Forall_map, Forall_forall. intros fragment Hin.
    apply filter_In in Hin as [_ Hk]. apply Nat.ltb_lt in Hk.
    unfold bulleted. simpl. lia. }
  split; [reflexivity|]. split; [exact E|]. split; [exact L|].
  intros H. destruct (bullet_points_of summaries) as [|b bs] eqn:B.
  - left. split; [reflexivity|]. unfold format_bullet_points. now rewrite B.
  - right. unfold format_bullet_points. rewrite B, <- B.
    assert (S : split_on 10%N (join nl (bullet_points_of summaries))
                = bullet_points_of summaries).
    { apply split_on_join; [rewrite B; discriminate|].
      now apply bullet_points_one_line. }
    rewrite S. split; [reflexivity|]. rewrite B. exact L.
Qed.

End BulletLines.

(** A summary with a line break in its first fragment: one entry of 20
    code points, but a first line of 3. *)
Lemma short_bullet_line :
  format_bullet_points [lit "a" ++ nl ++ lit "bcdefghijklmnopq"]
  = bullet :: lit " a" ++ nl ++ lit "bcdefghijklmnopq"
  /\ split_on 10%N
       (format_bullet_points [lit "a" ++ nl ++ lit "bcdefghijklmnopq"])
     = [bullet :: lit " a"; lit "bcdefghijklmnopq"]
  /\ length (bullet :: lit " a") = 3.
Proof. vm_compute. repeat split. Qed.

(** Two summaries on one line each: three lines, three entries. *)
Lemma bullet_lines_long_sorting :
  let summaries :=
    [ lit "Sorting orders a list. It is a classic problem. Short one.";
      lit "   Another fine summary sentence.  " ] in
  Forall (fun summary => line_breaks summary = 0) summaries
  /\ split_on 10%N (format_bullet_points summaries)
     = [ bullet :: lit " Sorting orders a list.";
         bullet :: lit " It is a classic problem.";
         bullet :: lit " Another fine summary sentence." ].
Proof.
  intros summaries.
  assert (H : Forall (fun summary => line_breaks summary = 0) summaries)
    by (repeat constructor).
  split; [exact H|].
  destruct (proj2 (proj2 (proj2 (bullet_lines_long summaries))) H)
    as [[B _] | [S _]].
  - vm_compute in B. discriminate.
  - rewrite S. vm_compute. reflexivity.
Defined.

(** ** The answer of chat.py *)

Section BestMatch.

Variable file_content : str -> str.
Variable vectorizer : Type.
Variable vec : Type.
Variable score : Type.
Variable fit : list str -> option vectorizer.
Variable transform : vectorizer -> str -> vec.
Variable cosine_similarity : vec -> vec -> score.
Variable score_leb : score -> score -> bool.
Variable argsort : list score -> list nat.

Lemma listed_indices (n : nat) (indices : list nat) :
  forallb (fun k => existsb (Nat.eqb k) indices) (seq 0 n) = true ->
  forall k, k < n -> In k indices.
Proof.
  intros H k Hk.
  assert (Hin : In k (seq 0 n)) by (apply in_seq; lia).
  pose proof (proj1 (forallb_forall _ _) H k Hin) as E.
  apply existsb_exists in E as (x & Hx & Ex).
  apply Nat.eqb_eq in Ex. now subst x.
Qed.

Lemma indices_in_range (n : nat) (indices : list nat) :
  (forall k, k < n -> In k indices) ->
  length indices = n ->
  forall a, In a indices -> a < n.
Proof.
  intros Hall Hlen a Ha.
  assert (Hincl : incl indices (seq 0 n)).
  { apply NoDup_length_incl.
    - apply seq_NoDup.
    - rewrite length_seq. lia.
    - intros k Hk. apply in_seq in Hk. apply Hall. lia. }
  apply Hincl in Ha. apply in_seq in Ha. lia.
Qed.

Lemma ascending_last (sims : list score) (init : list nat) (i : nat) :
  Retrieval.ascending score_leb sims (init ++ [i]) = true ->
  forall a x,
    In a init -> nth_error sims a = Some x ->
    exists y, nth_error sims i = Some y /\ score_leb x y = true.
Proof.
  induction init as [|b init IH]; intros H a x Ha Hx; [contradiction|].
  cbn [app Retrieval.ascending] in H. apply andb_prop in H as [H1 H2].
  destruct Ha as [<-|Ha]; [|now apply (IH H2 a x)].
  rewrite forallb_app in H1. apply andb_prop in H1 as [_ H1].
  cbn [forallb] in H1. rewrite andb_true_r, Hx in H1.
  destruct (nth_error sims i) as [y|]; [|discriminate].
  now exists y.
Qed.


End BestMatch.


